(** * The decode tree of the Arm disassembler (decoder.py)

    A shallow embedding of the class [EncodingTable] of [decoder.py]:
    its constructor, which builds the decode tree from the parsed
    [encodingindex.xml], and its methods [print], [decode] and
    [matchVar].

    Python values are modelled as follows.
    - An [xml.etree] element is a rose tree [Element] with a tag, an
      attribute dictionary, an optional text and its children in document
      order; [find], [findall] and the path [.//tag] are functions on it.
    - A [dict] is an association list without repeated keys that keeps the
      order of first insertion ([PyDict.set]); assigning to an existing key
      replaces the value in place.
    - A raised exception is the [Raise] case of the result type [res].
    - What the modules [common] and [disassembler] provide
      ([compareWithXs], [InstructionMapping.assignValues],
      [InstructionPage.disassemble], [ARM_FILE_PATH]) and the builtin [int]
      are variables of the section [Collaborators] of the module [Decoder].
      They are taken as functions: a collaborator that raises is outside
      the model.  An [InstructionPage] is identified with its path.

    The file has the model first, then the fragments and tables of the
    examples, then the facts: dictionaries, strings, [matchVar] and
    [decode], the table of an [iclass_sect], the table of a node, the
    tables of a built tree, and further facts on [decode], the builder
    and [print]; the theorems are applied to the examples at the end. *)

From Stdlib Require Import List String Ascii Bool Arith ZArith Lia Permutation.
Set Warnings "-register-all".
Import ListNotations.
Local Open Scope string_scope.
Local Open Scope list_scope.

(** ** Exceptions *)

Inductive exn : Type :=
| KeyError        (* d[k] on a missing key *)
| AttributeError  (* attribute access on None *)
| IndexError      (* l[i] out of range *)
| ValueError.     (* int(s) on a non-numeral *)

Inductive res (A : Type) : Type :=
| Ok (a : A)
| Raise (e : exn).
Arguments Ok {A} a.
Arguments Raise {A} e.

Definition bind {A B : Type} (c : res A) (k : A -> res B) : res B :=
  match c with
  | Ok a => k a
  | Raise e => Raise e
  end.

Notation "x <- c ;; k" := (bind c (fun x => k))
  (at level 61, c at next level, right associativity).

(** [o] when it is not None, the exception [e] otherwise. *)
Definition orRaise {A : Type} (e : exn) (o : option A) : res A :=
  match o with
  | Some a => Ok a
  | None => Raise e
  end.

(** ** Python dictionaries *)

Module PyDict.
Section Dict.
Context {K V : Type}.
Variable eqb : K -> K -> bool.

Definition t : Type := list (K * V).

(** [d[k]], None standing for KeyError. *)
Fixpoint get (k : K) (d : t) : option V :=
  match d with
  | [] => None
  | (k', v) :: d' => if eqb k' k then Some v else get k d'
  end.

(** [k in d] *)
Definition mem (k : K) (d : t) : bool :=
  match get k d with Some _ => true | None => false end.

(** [d[k] = v]: a present key keeps its place, a new key goes last. *)
Fixpoint set (k : K) (v : V) (d : t) : t :=
  match d with
  | [] => [(k, v)]
  | (k', v') :: d' =>
      if eqb k' k then (k', v) :: d' else (k', v') :: set k v d'
  end.

Definition keys (d : t) : list K := map fst d.

(** [for (k, v) in kvs: d[k] = v] *)
Definition update (kvs : list (K * V)) (d : t) : t :=
  fold_left (fun d kv => set (fst kv) (snd kv) d) kvs d.
End Dict.
End PyDict.

(** ** Strings *)

Definition len (s : string) : nat := String.length s.

(** [s.replace(' ', '')]: every space is removed. *)
Fixpoint remove_spaces (s : string) : string :=
  match s with
  | EmptyString => EmptyString
  | String c r =>
      if Ascii.eqb c " " then remove_spaces r else String c (remove_spaces r)
  end.

(** ["!=" in s] *)
Fixpoint contains_neq (s : string) : bool :=
  match s with
  | EmptyString => false
  | String c r =>
      match r with
      | String d _ => (Ascii.eqb c "!" && Ascii.eqb d "=") || contains_neq r
      | EmptyString => false
      end
  end.

(** [s.split("!=")]: the piece before the first ["!="] and the list of the
    pieces after it (the result of [split] is never empty). *)
Fixpoint split_neq (s : string) : string * list string :=
  match s with
  | EmptyString => (EmptyString, [])
  | String c r =>
      let skip := let (p, ps) := split_neq r in (String c p, ps) in
      match r with
      | String d r' =>
          if Ascii.eqb c "!" && Ascii.eqb d "="
          then let (p, ps) := split_neq r' in (EmptyString, p :: ps)
          else skip
      | EmptyString => skip
      end
  end.

Definition split_list (s : string) : list string :=
  let (p, ps) := split_neq s in p :: ps.

(** [s[:n]] and [s[n:]] for [0 <= n]; both stop at the end of [s]. *)
Fixpoint slice_to (n : nat) (s : string) : string :=
  match n, s with
  | S n', String c r => String c (slice_to n' r)
  | _, _ => EmptyString
  end.

Fixpoint slice_from (n : nat) (s : string) : string :=
  match n, s with
  | S n', String _ r => slice_from n' r
  | _, _ => s
  end.

(** Equality of Python values used as dictionary keys. *)
Definition option_eqb {A : Type} (eqb : A -> A -> bool) (x y : option A) : bool :=
  match x, y with
  | Some a, Some b => eqb a b
  | None, None => true
  | _, _ => false
  end.

Fixpoint list_eqb {A : Type} (eqb : A -> A -> bool) (l m : list A) : bool :=
  match l, m with
  | [], [] => true
  | a :: l', b :: m' => eqb a b && list_eqb eqb l' m'
  | _, _ => false
  end.

(** ** Row keys, targets and tables *)

(** One constraint [(variable name, expected value)].  The name is the text
    of a header cell or a [name] attribute, the value the text of a cell:
    the text of an element without text is None. *)
Definition constraint : Type := option string * option string.

(** The key of an entry: [tuple(mapping)]. *)
Definition rowkey : Type := list constraint.

Definition constraint_eqb (a b : constraint) : bool :=
  option_eqb String.eqb (fst a) (fst b) && option_eqb String.eqb (snd a) (snd b).

Definition rowkey_eqb : rowkey -> rowkey -> bool := list_eqb constraint_eqb.

(** [InstructionPage(path)], of the module [disassembler]: the table keeps
    the object, which is identified here with the path it was made from. *)
Record InstructionPage : Type := mkInstructionPage { page_path : string }.

(** [variables]: name to [[hibit, width]], from which the
    [InstructionMapping] of a table is made. *)
Definition variables_t : Type := PyDict.t (K := string) (V := Z * Z).

(** A table, and the three kinds of value an entry (or [directFile]) holds:
    a nested table, an instruction page or a name. *)
Inductive EncodingTable : Type :=
| mkEncodingTable (entries : list (rowkey * target))
                  (instructionMapping : variables_t)
                  (directFile : option target)
with target : Type :=
| TTable (t : EncodingTable)
| TPage (p : InstructionPage)
| TName (s : string).

Definition entries (t : EncodingTable) : list (rowkey * target) :=
  match t with mkEncodingTable e _ _ => e end.
Definition instructionMapping (t : EncodingTable) : variables_t :=
  match t with mkEncodingTable _ m _ => m end.
Definition directFile (t : EncodingTable) : option target :=
  match t with mkEncodingTable _ _ d => d end.

Definition entries_set : rowkey -> target -> list (rowkey * target) -> list (rowkey * target) :=
  PyDict.set rowkey_eqb.
Definition entries_get : rowkey -> list (rowkey * target) -> option target :=
  PyDict.get rowkey_eqb.

(** ** Parsed XML ([xml.etree.ElementTree]) *)

Definition attrib_t : Type := PyDict.t (K := string) (V := string).

Inductive Element : Type :=
| mkElement (tag : string) (attrib : attrib_t) (text : option string)
            (children : list Element).

Definition tag (e : Element) : string :=
  match e with mkElement t _ _ _ => t end.
Definition attrib (e : Element) : attrib_t :=
  match e with mkElement _ a _ _ => a end.
Definition text (e : Element) : option string :=
  match e with mkElement _ _ t _ => t end.
Definition children (e : Element) : list Element :=
  match e with mkElement _ _ _ c => c end.

Definition has_tag (tg : string) (e : Element) : bool := String.eqb (tag e) tg.

(** [e.find(tg)]: the first child with that tag, or None. *)
Definition find (tg : string) (e : Element) : option Element :=
  List.find (has_tag tg) (children e).

(** [e.findall(tg)]: the children with that tag, in document order. *)
Definition findall (tg : string) (e : Element) : list Element :=
  filter (has_tag tg) (children e).

(** [e.iter()]: [e] and everything below it, in document order. *)
Fixpoint iter (e : Element) : list Element :=
  match e with
  | mkElement _ _ _ cs => e :: flat_map iter cs
  end.

(** [e.findall(".//" + tg)]: the elements with that tag at any depth below
    [e], in document order. *)
Definition findall_below (tg : string) (e : Element) : list Element :=
  filter (has_tag tg) (flat_map iter (children e)).

(** [k in e.attrib] and [e.attrib[k]] *)
Definition has_attrib (k : string) (e : Element) : bool :=
  PyDict.mem String.eqb k (attrib e).
Definition get_attrib (k : string) (e : Element) : res string :=
  orRaise KeyError (PyDict.get String.eqb k (attrib e)).

(** [o.m] for a method or attribute [m] of an object that may be None. *)
Definition notNone {A : Type} (o : option A) : res A := orRaise AttributeError o.

(** [l[i]] *)
Definition index {A : Type} (l : list A) (i : nat) : res A :=
  orRaise IndexError (nth_error l i).

(** What [decode] returns: None, a name, or what [disassemble] made. *)
Inductive value (D : Type) : Type :=
| VNone
| VStr (s : string)
| VObj (d : D).
Arguments VNone {D}.
Arguments VStr {D} s.
Arguments VObj {D} d.

Module Decoder.
Section Collaborators.

(** The instruction passed to [decode], and the objects [disassemble]
    returns. *)
Variable Instruction : Type.
Variable Disassembled : Type.

(** [common.compareWithXs(pattern, value)] *)
Variable compareWithXs : string -> string -> bool.
(** [InstructionMapping(variables).assignValues(instruction)]: pairs of a
    variable's name and its extracted value. *)
Variable assignValues : variables_t -> Instruction -> list (string * string).
(** [InstructionPage.disassemble(instruction)] *)
Variable disassemble : InstructionPage -> Instruction -> res (value Disassembled).
(** The builtin [int] on a string; None stands for ValueError. *)
Variable int : string -> option Z.
(** [common.ARM_FILE_PATH] *)
Variable ARM_FILE_PATH : string.

(** *** matchVar *)

(** The body of the loop of [matchVar] once [var[0] == tup[0]]: does the
    value [v = var[1]] match the expected value [pat = tup[1]]?
    - [if tup[1] == None: return True]
    - [if "!=" in tup[1]:] with
      [splitEncoding = tup[1].replace(' ', '').split('!=')], either
      [return not compareWithXs(splitEncoding[1], var[1])] when
      [len(splitEncoding[0]) == 0], or
      [return compareWithXs(splitEncoding[0], firstHalf)
         and not compareWithXs(splitEncoding[1], secondHalf)]
      with the halves [var[1][:splitPoint]] and [var[1][splitPoint:]]
    - [else: return compareWithXs(tup[1], var[1])] *)
Definition matchValue (pat : option string) (v : string) : res bool :=
  match pat with
  | None => Ok true
  | Some p =>
      if contains_neq p then
        let splitEncoding := split_list (remove_spaces p) in
        s0 <- index splitEncoding 0 ;;
        if Nat.eqb (len s0) 0 then
          s1 <- index splitEncoding 1 ;;
          Ok (negb (compareWithXs s1 v))
        else
          let splitPoint := len s0 in
          let firstHalf := slice_to splitPoint v in
          let secondHalf := slice_from splitPoint v in
          if compareWithXs s0 firstHalf then
            s1 <- index splitEncoding 1 ;;
            Ok (negb (compareWithXs s1 secondHalf))
          else Ok false
      else Ok (compareWithXs p v)
  end.

(** [for var in vars: if var[0] == tup[0]: ...] and [return False] after
    the loop. *)
Fixpoint matchVar (vars : list (string * string)) (tup : constraint) : res bool :=
  match vars with
  | [] => Ok false
  | var :: vars' =>
      if option_eqb String.eqb (Some (fst var)) (fst tup)
      then matchValue (snd tup) (snd var)
      else matchVar vars' tup
  end.

(** *** decode *)

(** The inner loop of [decode],
    [for tup in row: if not self.matchVar(values, tup): matches = False]:
    [matches] starts as True and every constraint of the row is tested,
    also after one has failed. *)
Fixpoint row_loop (values : list (string * string)) (row : rowkey)
         (matches : bool) : res bool :=
  match row with
  | [] => Ok matches
  | tup :: row' =>
      b <- matchVar values tup ;;
      row_loop values row' (if negb b then false else matches)
  end.

(** [decode(self, instruction)]: with a [directFile] it is resolved at
    once; otherwise the rows are tried in the order of [self.entries.keys()]
    and the first row that matches is resolved; [return None] after the
    loop. *)
Fixpoint decode (t : EncodingTable) (instruction : Instruction) {struct t}
  : res (value Disassembled) :=
  match t with
  | mkEncodingTable entries instructionMapping directFile =>
      let values := assignValues instructionMapping instruction in
      let resolve (tg : target) : res (value Disassembled) :=
        match tg with
        | TTable t' => decode t' instruction
        | TPage p => disassemble p instruction
        | TName s => Ok (VStr s)
        end in
      match directFile with
      | Some tg => resolve tg
      | None =>
          (fix rows (l : list (rowkey * target)) : res (value Disassembled) :=
             match l with
             | [] => Ok VNone
             | (row, tg) :: l' =>
                 matches <- row_loop values row true ;;
                 if matches then resolve tg else rows l'
             end) entries
      end
  end.

(** The values [decode] matches the rows of [t] against. *)
Definition values_of (t : EncodingTable) (instruction : Instruction)
  : list (string * string) :=
  assignValues (instructionMapping t) instruction.

(** What [decode] does with the value of the selected entry, or with
    [directFile]: a table decodes further, a page disassembles, a name
    is returned. *)
Definition resolve (tg : target) (instruction : Instruction)
  : res (value Disassembled) :=
  match tg with
  | TTable t' => decode t' instruction
  | TPage p => disassemble p instruction
  | TName s => Ok (VStr s)
  end.

(** The outer loop of [decode], over [self.entries.keys()]. *)
Fixpoint rows_loop (values : list (string * string))
         (instruction : Instruction) (l : list (rowkey * target))
  : res (value Disassembled) :=
  match l with
  | [] => Ok VNone
  | (row, tg) :: l' =>
      matches <- row_loop values row true ;;
      if matches then resolve tg instruction else rows_loop values instruction l'
  end.

(** *** __init__ *)

Definition to_int (s : string) : res Z := orRaise ValueError (int s).

(** The loop over the boxes of the [regdiagram]: a box with a name adds
    [variables[box.attrib["name"]] = [int(box.attrib["hibit"]), int(varWidth)]],
    [varWidth] being [box.attrib["width"]] or else the number 1. *)
Fixpoint read_boxes (boxes : list Element) (variables : variables_t)
  : res variables_t :=
  match boxes with
  | [] => Ok variables
  | box :: boxes' =>
      if has_attrib "name" box then
        varWidth <- (if has_attrib "width" box
                     then w <- get_attrib "width" box ;; Ok (inl w)
                     else Ok (inr 1%Z)) ;;
        hibit <- get_attrib "hibit" box ;;
        h <- to_int hibit ;;
        w <- (match varWidth with inl s => to_int s | inr z => Ok z end) ;;
        name <- get_attrib "name" box ;;
        read_boxes boxes' (PyDict.set String.eqb name (h, w) variables)
      else read_boxes boxes' variables
  end.

Definition read_variables (hierarchy : Element) : res variables_t :=
  regdiagram <- notNone (find "regdiagram" hierarchy) ;;
  read_boxes (findall "box" regdiagram) [].

(** The value stored for the row [tr] of an instruction table: the page
    of its [iformfile], or else its [encname]. *)
Definition row_target (tr : Element) : res target :=
  if has_attrib "iformfile" tr then
    f <- get_attrib "iformfile" tr ;;
    Ok (TPage (mkInstructionPage (ARM_FILE_PATH ++ "/" ++ f)))
  else
    n <- get_attrib "encname" tr ;;
    Ok (TName n).

(** [for i in range(0, len(tableVars)):
       mapping.append((tableVars[i], tds[i].text))],
    from index [i] on, [rest] being [tableVars[i:]]. *)
Fixpoint row_mapping (rest : list (option string)) (tds : list Element)
         (i : nat) (mapping : rowkey) : res rowkey :=
  match rest with
  | [] => Ok mapping
  | var :: rest' =>
      td <- index tds i ;;
      row_mapping rest' tds (S i) (mapping ++ [(var, text td)])
  end.

(** The loop over the rows of the body of an instruction table. *)
Fixpoint sect_rows (tableVars : list (option string)) (trs : list Element)
         (entries : list (rowkey * target)) : res (list (rowkey * target)) :=
  match trs with
  | [] => Ok entries
  | tr :: trs' =>
      mapping <- row_mapping tableVars (findall "td" tr) 0 [] ;;
      tg <- row_target tr ;;
      sect_rows tableVars trs' (entries_set mapping tg entries)
  end.

(** [EncodingTable(root, hierarchy, True)]: the table of an
    [iclass_sect].  With [len(headers) == 1], [headers] being the rows of
    the [thead], [directFile] is set from the first row of the [tbody] and
    the constructor returns; otherwise [tableVars] are the texts of the
    cells of [headers[1]] and every row of the [tbody] is entered. *)
Definition init_sect (hierarchy : Element) : res EncodingTable :=
  variables <- read_variables hierarchy ;;
  instructiontable <- notNone (find "instructiontable" hierarchy) ;;
  thead <- notNone (find "thead" instructiontable) ;;
  let headers := findall "tr" thead in
  if Nat.eqb (List.length headers) 1 then
    tbody <- notNone (find "tbody" instructiontable) ;;
    tr <- notNone (find "tr" tbody) ;;
    d <- row_target tr ;;
    Ok (mkEncodingTable [] variables (Some d))
  else
    h1 <- index headers 1 ;;
    let tableVars := map text (findall "th" h1) in
    body <- notNone (find "tbody" instructiontable) ;;
    entries <- sect_rows tableVars (findall "tr" body) [] ;;
    Ok (mkEncodingTable entries variables None).

(** The loop over the boxes of the [decode] of a node. *)
Fixpoint decode_boxes (boxes : list Element) (mapping : rowkey) : res rowkey :=
  match boxes with
  | [] => Ok mapping
  | box :: boxes' =>
      name <- get_attrib "name" box ;;
      c <- notNone (find "c" box) ;;
      decode_boxes boxes' (mapping ++ [(Some name, text c)])
  end.

Definition node_mapping (node : Element) : res rowkey :=
  decode <- notNone (find "decode" node) ;;
  decode_boxes (findall "box" decode) [].

(** The loop over all the [iclass_sect] of the document, for a node of
    class [iclass]:
    [if sect.attrib["id"] == node.attrib["iclass"]:
       found = True
       self.entries[tuple(mapping)] = EncodingTable(root, sect, True)
       continue].
    The [continue] is the last statement of the body: the loop goes on
    with the next section after one is found. *)
Fixpoint sect_loop (iclass : string) (mapping : rowkey) (sects : list Element)
         (found : bool) (entries : list (rowkey * target))
  : res (bool * list (rowkey * target)) :=
  match sects with
  | [] => Ok (found, entries)
  | sect :: sects' =>
      id <- get_attrib "id" sect ;;
      if String.eqb id iclass then
        t <- init_sect sect ;;
        sect_loop iclass mapping sects' true (entries_set mapping (TTable t) entries)
      else sect_loop iclass mapping sects' found entries
  end.

(** The body of the loop over the nodes of a hierarchy; [build] is
    [EncodingTable(root, _)].  A node with a [groupname] is entered with
    its own table, a node with an [iclass] with the table of its section or,
    [if not found], with the name [node.attrib["iclass"]]; a node with
    neither is not entered. *)
Definition node_step (build : Element -> res EncodingTable) (root node : Element)
           (entries : list (rowkey * target)) : res (list (rowkey * target)) :=
  mapping <- node_mapping node ;;
  if has_attrib "groupname" node then
    t <- build node ;;
    Ok (entries_set mapping (TTable t) entries)
  else if has_attrib "iclass" node then
    iclass <- get_attrib "iclass" node ;;
    r <- sect_loop iclass mapping (findall_below "iclass_sect" root) false entries ;;
    if negb (fst r) then Ok (entries_set mapping (TName iclass) (snd r))
    else Ok (snd r)
  else Ok entries.

Fixpoint nodes_loop (build : Element -> res EncodingTable) (root : Element)
         (nodes : list Element) (entries : list (rowkey * target))
  : res (list (rowkey * target)) :=
  match nodes with
  | [] => Ok entries
  | node :: nodes' =>
      entries' <- node_step build root node entries ;;
      nodes_loop build root nodes' entries'
  end.

(** [EncodingTable(root, hierarchy)]: the table of a node.  The recursion
    is on the children of [hierarchy], of which the loop takes those with
    the tag [node] ([init_node_eq] below states it with [findall]). *)
Fixpoint init_node (root hierarchy : Element) {struct hierarchy}
  : res EncodingTable :=
  match hierarchy with
  | mkElement _ _ _ cs =>
      variables <- read_variables hierarchy ;;
      entries <-
        (fix loop (cs : list Element) (entries : list (rowkey * target))
           : res (list (rowkey * target)) :=
           match cs with
           | [] => Ok entries
           | node :: cs' =>
               if has_tag "node" node then
                 entries' <- node_step (fun n => init_node root n) root node entries ;;
                 loop cs' entries'
               else loop cs' entries
           end) cs [] ;;
      Ok (mkEncodingTable entries variables None)
  end.

(** [EncodingTable(root, hierarchy, sect)] *)
Definition EncodingTable_init (root hierarchy : Element) (sect : bool)
  : res EncodingTable :=
  if sect then init_sect hierarchy else init_node root hierarchy.

End Collaborators.
End Decoder.
Import Decoder.

(** ** The parts of a fragment the statements speak of *)

(** The rows of the head and of the body of the instruction table of an
    [iclass_sect], as [__init__] reaches them. *)
Definition header_rows (sect : Element) : list Element :=
  match find "instructiontable" sect with
  | Some it =>
      match find "thead" it with
      | Some thead => findall "tr" thead
      | None => []
      end
  | None => []
  end.

Definition data_rows (sect : Element) : list Element :=
  match find "instructiontable" sect with
  | Some it =>
      match find "tbody" it with
      | Some tbody => findall "tr" tbody
      | None => []
      end
  | None => []
  end.

(** [tableVars]: the texts of the cells of the second header row. *)
Definition table_vars (sect : Element) : list (option string) :=
  match nth_error (header_rows sect) 1 with
  | Some h1 => map text (findall "th" h1)
  | None => []
  end.

(** The key [tuple(mapping)] of the row [tr] of the table of [sect]. *)
Definition row_key (sect tr : Element) : res rowkey :=
  row_mapping (table_vars sect) (findall "td" tr) 0 [].

(** The children of a hierarchy for which the loop over the nodes stores
    an entry: the nodes with a [groupname] or an [iclass]. *)
Definition stored_nodes (hierarchy : Element) : list Element :=
  filter (fun n => has_attrib "groupname" n || has_attrib "iclass" n)
         (findall "node" hierarchy).

(** Has the fragment a row (table) or a child (hierarchy) to store? *)
Definition has_rows (hierarchy : Element) (sect : bool) : bool :=
  if sect then negb (Nat.eqb (List.length (data_rows hierarchy)) 0)
  else negb (Nat.eqb (List.length (stored_nodes hierarchy)) 0).

(** [fragment_of root h sect h' sect']: building [h] (as a section when
    [sect]) in the document [root] leads the builder to build [h'] (as a
    section when [sect']): the fragment itself; below a hierarchy, what its
    children with a group name lead to; and, for a child that has no group
    name and names a class, the [iclass_sect] elements of the document
    with the identifier of that class. *)
Inductive fragment_of (root : Element)
  : Element -> bool -> Element -> bool -> Prop :=
| fragment_self (h : Element) (sect : bool) :
    fragment_of root h sect h sect
| fragment_group (h node h' : Element) (sect' : bool) :
    In node (findall "node" h) ->
    has_attrib "groupname" node = true ->
    fragment_of root node false h' sect' ->
    fragment_of root h false h' sect'
| fragment_sect (h node s : Element) (iclass : string) :
    In node (findall "node" h) ->
    has_attrib "groupname" node = false ->
    PyDict.get String.eqb "iclass" (attrib node) = Some iclass ->
    In s (findall_below "iclass_sect" root) ->
    PyDict.get String.eqb "id" (attrib s) = Some iclass ->
    fragment_of root h false s true.

(** A table and all the tables below it. *)
Fixpoint subtables (t : EncodingTable) : list EncodingTable :=
  match t with
  | mkEncodingTable es _ d =>
      t :: (fix below (l : list (rowkey * target)) : list EncodingTable :=
              match l with
              | [] => []
              | (_, TTable t') :: l' => subtables t' ++ below l'
              | _ :: l' => below l'
              end) es
        ++ match d with
           | Some (TTable t') => subtables t'
           | _ => []
           end
  end.

(** The tables below the entries [l]. *)
Definition tables_below (l : list (rowkey * target)) : list EncodingTable :=
  flat_map (fun e => match snd e with
                     | TTable t' => subtables t'
                     | _ => []
                     end) l.

(** The entries of a dictionary under the key [k]. *)
Definition entries_at (k : rowkey) (es : list (rowkey * target))
  : list (rowkey * target) :=
  filter (fun e => rowkey_eqb (fst e) k) es.

(** ** Collaborators and documents for the examples *)

(** Modelled from the spec: [compareWithXs] of the module [common], which
    [decoder.py] imports and which is not part of it.  The two strings are
    compared position by position, a pattern character [x] matches any
    value character and any other character must be equal; strings of
    different lengths, for which the spec leaves the comparison open, do
    not match here. *)
Fixpoint compareWithXs_model (pattern v : string) : bool :=
  match pattern, v with
  | EmptyString, EmptyString => true
  | String p ps, String c cs =>
      (Ascii.eqb p "x" || Ascii.eqb p c) && compareWithXs_model ps cs
  | _, _ => false
  end.

(** [int] on the unsigned decimal numerals, the only ones of the examples. *)
Fixpoint decimal (s : string) (acc : Z) : option Z :=
  match s with
  | EmptyString => Some acc
  | String c r =>
      let n := nat_of_ascii c in
      if Nat.leb 48 n && Nat.leb n 57
      then decimal r (10 * acc + Z.of_nat (n - 48))
      else None
  end.

Definition int_decimal (s : string) : option Z :=
  match s with
  | EmptyString => None
  | _ => decimal s 0
  end.

(** An extractor for the examples: the instruction is the string of its 32
    bits, bit 31 first, and a variable is the substring of [width] bits
    from [hibit] down. *)
Definition assignValues_bits (variables : variables_t) (instruction : string)
  : list (string * string) :=
  map (fun var =>
         (fst var,
          substring (Z.to_nat (31 - fst (snd var))) (Z.to_nat (snd (snd var)))
                    instruction))
      variables.

(** A renderer for the examples: it answers with the path of the page. *)
Definition disassemble_path (p : InstructionPage) (_ : string)
  : res (value string) :=
  Ok (VObj (page_path p)).

Definition el (tg : string) (a : attrib_t) (cs : list Element) : Element :=
  mkElement tg a None cs.
Definition leaf (tg txt : string) : Element :=
  mkElement tg [] (Some txt) [].
Definition regdiagram_of (name hibit width : string) : Element :=
  el "regdiagram" []
     [el "box" [("hibit", hibit); ("width", width); ("name", name)] []].
Definition table_of (heads rows : list Element) : Element :=
  el "instructiontable" [] [el "thead" [] heads; el "tbody" [] rows].

(** A table with two header rows and the rows [00 -> formA], [x1 -> formB]
    on the variable [subop], bits 29 and 28. *)
Definition sect_ab : Element :=
  el "iclass_sect" [("id", "cls")]
     [regdiagram_of "subop" "29" "2";
      table_of [el "tr" [] [leaf "th" "Decode fields"];
                el "tr" [] [leaf "th" "subop"]]
               [el "tr" [("encname", "formA")] [leaf "td" "00"];
                el "tr" [("encname", "formB")] [leaf "td" "x1"]]].

(** A node for the class [iclass] under the constraint [opc = 1x]. *)
Definition node_ref (iclass : string) : Element :=
  el "node" [("iclass", iclass)]
     [el "decode" [] [el "box" [("name", "opc")] [leaf "c" "1x"]]].

Definition hierarchy_of (nodes : list Element) : Element :=
  el "hierarchy" [] (regdiagram_of "opc" "31" "2" :: nodes).

(** The two-level document: one child, [opc = 1x], for the table above. *)
Definition doc_ab : Element :=
  el "encodingindex" [] [hierarchy_of [node_ref "cls"]; sect_ab].

(** The same hierarchy in a document without any table. *)
Definition doc_missing : Element :=
  el "encodingindex" [] [hierarchy_of [node_ref "cls"]].

(** A table with two header rows and a single data row. *)
Definition sect_single_row : Element :=
  el "iclass_sect" [("id", "one")]
     [regdiagram_of "subop" "29" "2";
      table_of [el "tr" [] [leaf "th" "Decode fields"];
                el "tr" [] [leaf "th" "subop"]]
               [el "tr" [("encname", "formA")] [leaf "td" "00"]]].

(** A table with one header row and the data rows of [formA] and [formB]. *)
Definition sect_single_header : Element :=
  el "iclass_sect" [("id", "two")]
     [regdiagram_of "subop" "29" "2";
      table_of [el "tr" [] [leaf "th" "Decode fields"]]
               [el "tr" [("encname", "formA")] [];
                el "tr" [("iformfile", "formB.xml")] []]].

(** A table with one header row and one data row, of the name [name]. *)
Definition sect_direct (id name : string) : Element :=
  el "iclass_sect" [("id", id)]
     [regdiagram_of "subop" "29" "2";
      table_of [el "tr" [] [leaf "th" "Decode fields"]]
               [el "tr" [("encname", name)] []]].

(** A document in which two tables have the identifier [cls]. *)
Definition doc_twice : Element :=
  el "encodingindex" []
     [hierarchy_of [node_ref "cls"];
      sect_direct "cls" "first"; sect_direct "cls" "second"].

(** A hierarchy without children. *)
Definition hierarchy_empty : Element := hierarchy_of [].

(** A table whose first and third rows have the key [subop = 0x]. *)
Definition sect_repeat : Element :=
  el "iclass_sect" [("id", "rep")]
     [regdiagram_of "subop" "29" "2";
      table_of [el "tr" [] [leaf "th" "Decode fields"];
                el "tr" [] [leaf "th" "subop"]]
               [el "tr" [("encname", "early")] [leaf "td" "0x"];
                el "tr" [("encname", "other")] [leaf "td" "00"];
                el "tr" [("encname", "late")] [leaf "td" "0x"]]].

(** A document whose only table has another identifier than the class
    [gone] of the child of its hierarchy. *)
Definition doc_unresolved : Element :=
  el "encodingindex" [] [hierarchy_of [node_ref "gone"]; sect_ab].

(** Instructions, by their bits 31 to 28: [opc] and [subop] above. *)
Definition word_10_01 : string := "10010000000000000000000000000000".
Definition word_01_01 : string := "01010000000000000000000000000000".
Definition word_00_10 : string := "00100000000000000000000000000000".
Definition word_00_00 : string := "00000000000000000000000000000000".

Definition key_subop (pat : string) : rowkey := [(Some "subop", Some pat)].
Definition key_opc : rowkey := [(Some "opc", Some "1x")].
Definition vars_subop : variables_t := [("subop", (29, 2)%Z)].
Definition vars_opc : variables_t := [("opc", (31, 2)%Z)].

(** The tables the builder makes of the fragments above. *)
Definition table_ab : EncodingTable :=
  mkEncodingTable [(key_subop "00", TName "formA"); (key_subop "x1", TName "formB")]
                  vars_subop None.
Definition tree_ab : EncodingTable :=
  mkEncodingTable [(key_opc, TTable table_ab)] vars_opc None.
Definition table_single_row : EncodingTable :=
  mkEncodingTable [(key_subop "00", TName "formA")] vars_subop None.
Definition table_single_header : EncodingTable :=
  mkEncodingTable [] vars_subop (Some (TName "formA")).
Definition table_direct (name : string) : EncodingTable :=
  mkEncodingTable [] vars_subop (Some (TName name)).
Definition table_repeat : EncodingTable :=
  mkEncodingTable [(key_subop "0x", TName "late"); (key_subop "00", TName "other")]
                  vars_subop None.
Definition table_empty : EncodingTable :=
  mkEncodingTable [] vars_opc None.

(** A table of which the second and the third row both match [subop = 01]. *)
Definition table_overlap : EncodingTable :=
  mkEncodingTable [(key_subop "1x", TName "R0");
                   (key_subop "x1", TName "R1");
                   ([(Some "subop", None)], TName "R2")]
                  vars_subop None.

(** The functions of the section at the collaborators of the examples. *)
Definition decode_ex : EncodingTable -> string -> res (value string) :=
  decode string string compareWithXs_model assignValues_bits disassemble_path.
Definition matchVar_ex : list (string * string) -> constraint -> res bool :=
  matchVar compareWithXs_model.
Definition init_sect_ex : Element -> res EncodingTable :=
  init_sect int_decimal "arm".
Definition init_node_ex : Element -> Element -> res EncodingTable :=
  init_node int_decimal "arm".



(** ** print *)

(** The argument of a call of the builtin [print]: a number, a value of the
    entries or a string. *)
Inductive printed : Type :=
| PInt (n : nat)
| PValue (tg : target)
| PStr (s : string).

(** [print(self)], as the list of what it prints, in order:
    [print(len(self.entries.values()))], then [print(entry)] for every
    value of the entries, then, for every value that is a table,
    [print] of the empty string and [entry.print()]. *)
Fixpoint print (t : EncodingTable) : list printed :=
  match t with
  | mkEncodingTable es _ _ =>
      PInt (List.length es)
      :: map (fun e => PValue (snd e)) es
      ++ (fix nested (l : list (rowkey * target)) : list printed :=
            match l with
            | [] => []
            | (_, TTable t') :: l' => PStr EmptyString :: print t' ++ nested l'
            | _ :: l' => nested l'
            end) es
  end.

(** The numbers among what is printed. *)
Fixpoint printed_counts (l : list printed) : list nat :=
  match l with
  | [] => []
  | PInt n :: l' => n :: printed_counts l'
  | _ :: l' => printed_counts l'
  end.

(** ** The values of a tree *)

(** The values a table holds itself, in its entries and as [directFile],
    and the values of all the tables of a tree. *)
Definition own_targets (t : EncodingTable) : list target :=
  map snd (entries t)
  ++ match directFile t with
     | Some tg => [tg]
     | None => []
     end.

Definition tree_targets (t : EncodingTable) : list target :=
  flat_map own_targets (subtables t).


(** ** Joining the pieces of a split *)

(** ["!=".join([p] + ps)] *)
Fixpoint join_neq (p : string) (ps : list string) : string :=
  match ps with
  | [] => p
  | q :: ps' => (p ++ "!=" ++ join_neq q ps')%string
  end.


(** ** Further fragments and tables for the examples *)

(** A table of one row with two constraints, and the same with the
    constraints in the other order. *)
Definition table_two : EncodingTable :=
  mkEncodingTable [([(Some "opc", Some "1x"); (Some "subop", Some "01")],
                    TName "both")]
                  (vars_opc ++ vars_subop) None.
Definition table_two_swapped : EncodingTable :=
  mkEncodingTable [([(Some "subop", Some "01"); (Some "opc", Some "1x")],
                    TName "both")]
                  (vars_opc ++ vars_subop) None.

(** A child with a group name, which has the child of class [cls] itself,
    and a document with it. *)
Definition node_group : Element :=
  el "node" [("groupname", "grp")]
     [el "decode" [] [el "box" [("name", "opc")] [leaf "c" "1x"]];
      regdiagram_of "opc" "31" "2";
      node_ref "cls"].
Definition doc_nested : Element :=
  el "encodingindex" [] [hierarchy_of [node_group]; sect_ab].

(** A fragment whose [regdiagram] has a box without name and two boxes of
    the name [op], the second without [width]. *)
Definition hierarchy_boxes : Element :=
  el "hierarchy" []
     [el "regdiagram" []
         [el "box" [("hibit", "27")] [];
          el "box" [("hibit", "31"); ("width", "2"); ("name", "op")] [];
          el "box" [("hibit", "30"); ("name", "op")] []]].
Definition regdiagram_boxes : Element :=
  el "regdiagram" []
     [el "box" [("hibit", "27")] [];
      el "box" [("hibit", "31"); ("width", "2"); ("name", "op")] [];
      el "box" [("hibit", "30"); ("name", "op")] []].

(** A table whose [thead] has no row. *)
Definition sect_no_header : Element :=
  el "iclass_sect" [("id", "none")]
     [regdiagram_of "subop" "29" "2";
      table_of [] [el "tr" [("encname", "formA")] [leaf "td" "00"]]].

(** Another document with the section of [doc_ab]. *)
Definition doc_sections : Element := el "sections" [] [sect_ab].

(** The rows of the tables of [sect_ab] and of [doc_twice]. *)
Definition row_a : Element := el "tr" [("encname", "formA")] [leaf "td" "00"].
Definition row_b : Element := el "tr" [("encname", "formB")] [leaf "td" "x1"].

(** A root of which the first row leads to [table_ab] and the second
    matches every instruction. *)
Definition tree_back : EncodingTable :=
  mkEncodingTable [(key_opc, TTable table_ab);
                   ([(Some "opc", None)], TName "fallback")]
                  vars_opc None.
Definition word_10_10 : string := "10100000000000000000000000000000".

(** * Facts *)

(** ** The result type *)

Lemma bind_Ok {A B : Type} (c : res A) (k : A -> res B) (b : B) :
  bind c k = Ok b -> exists a, c = Ok a /\ k a = Ok b.
Proof.
  destruct c as [a|e]; simpl; intros H; [exists a; auto | discriminate].
Qed.

Tactic Notation "bind_inv" hyp(H) "as" ident(a) ident(Ha) :=
  apply bind_Ok in H; destruct H as (a & Ha & H).

(** ** Equality of keys *)

Lemma option_eqb_string_eq (x y : option string) :
  option_eqb String.eqb x y = true <-> x = y.
Proof.
  destruct x as [a|], y as [b|]; simpl; split; intros H;
    try discriminate; try reflexivity.
  - apply String.eqb_eq in H. now subst.
  - injection H as ->. apply String.eqb_refl.
Qed.

Lemma constraint_eqb_eq (a b : constraint) :
  constraint_eqb a b = true <-> a = b.
Proof.
  destruct a as [a1 a2], b as [b1 b2]; unfold constraint_eqb; simpl.
  rewrite andb_true_iff, !option_eqb_string_eq.
  split; [intros [-> ->]; reflexivity | intros H; injection H; auto].
Qed.

Lemma rowkey_eqb_eq (a b : rowkey) : rowkey_eqb a b = true <-> a = b.
Proof.
  unfold rowkey_eqb. revert b.
  induction a as [|x a IH]; intros [|y b]; simpl; split; intros H;
    try discriminate; try reflexivity.
  - apply andb_true_iff in H. destruct H as [H1 H2].
    apply constraint_eqb_eq in H1. apply IH in H2. now subst.
  - injection H as -> ->. apply andb_true_iff. split.
    + now apply constraint_eqb_eq.
    + now apply IH.
Qed.

(** ** Dictionaries *)

Section DictFacts.
Context {K V : Type}.
Variable eqb : K -> K -> bool.
Hypothesis eqb_eq : forall a b, eqb a b = true <-> a = b.

Lemma key_eqb_refl (a : K) : eqb a a = true.
Proof. now apply eqb_eq. Qed.

Lemma get_set_same (k : K) (v : V) (d : list (K * V)) :
  PyDict.get eqb k (PyDict.set eqb k v d) = Some v.
Proof.
  induction d as [|[k' v'] d IH]; simpl.
  - now rewrite key_eqb_refl.
  - destruct (eqb k' k) eqn:E; simpl; rewrite E; auto.
Qed.

Lemma get_set_other (k k' : K) (v : V) (d : list (K * V)) :
  k <> k' -> PyDict.get eqb k' (PyDict.set eqb k v d) = PyDict.get eqb k' d.
Proof.
  intros Hne. induction d as [|[k0 v0] d IH]; simpl.
  - destruct (eqb k k') eqn:E; [apply eqb_eq in E; contradiction | reflexivity].
  - destruct (eqb k0 k) eqn:E; simpl.
    + apply eqb_eq in E. subst k0.
      destruct (eqb k k') eqn:E'; [apply eqb_eq in E'; contradiction | reflexivity].
    + now rewrite IH.
Qed.

Lemma keys_set_in (k k' : K) (v : V) (d : list (K * V)) :
  In k' (PyDict.keys (PyDict.set eqb k v d)) <-> k' = k \/ In k' (PyDict.keys d).
Proof.
  unfold PyDict.keys. induction d as [|[k0 v0] d IH]; simpl.
  - intuition.
  - destruct (eqb k0 k) eqn:E; simpl.
    + apply eqb_eq in E. subst. intuition.
    + rewrite IH. intuition.
Qed.

Lemma keys_set_NoDup (k : K) (v : V) (d : list (K * V)) :
  NoDup (PyDict.keys d) -> NoDup (PyDict.keys (PyDict.set eqb k v d)).
Proof.
  unfold PyDict.keys. induction d as [|[k0 v0] d IH]; simpl; intros H.
  - constructor; [intros [] | constructor].
  - inversion H as [|? ? Hn Hd]; subst.
    destruct (eqb k0 k) eqn:E; simpl.
    + now constructor.
    + constructor; [|auto].
      intros Hin. apply (keys_set_in k k0 v d) in Hin.
      destruct Hin as [->|Hin]; [|contradiction].
      rewrite key_eqb_refl in E. discriminate.
Qed.

Lemma set_not_nil (k : K) (v : V) (d : list (K * V)) : PyDict.set eqb k v d <> [].
Proof. destruct d as [|[k' v'] d]; simpl; [|destruct (eqb k' k)]; discriminate. Qed.

Lemma get_in_keys (k : K) (d : list (K * V)) :
  In k (PyDict.keys d) <-> PyDict.get eqb k d <> None.
Proof.
  unfold PyDict.keys. induction d as [|[k0 v0] d IH]; simpl.
  - intuition.
  - destruct (eqb k0 k) eqn:E.
    + apply eqb_eq in E. subst. split; [discriminate | auto].
    + rewrite <- IH. split; [intros [->|]; auto | auto].
      rewrite key_eqb_refl in E. discriminate.
Qed.

(** With distinct keys, the entries under [k] are the one [get] finds. *)
Lemma filter_key_NoDup (k : K) (v : V) (d : list (K * V)) :
  NoDup (PyDict.keys d) -> PyDict.get eqb k d = Some v ->
  filter (fun e => eqb (fst e) k) d = [(k, v)].
Proof.
  unfold PyDict.keys. induction d as [|[k0 v0] d IH]; simpl; intros Hnd Hget.
  - discriminate.
  - inversion Hnd as [|? ? Hn Hd]; subst.
    destruct (eqb k0 k) eqn:E.
    + apply eqb_eq in E. subst k0. injection Hget as ->. f_equal.
      assert (Hnone : forall d' : list (K * V), ~ In k (map fst d') ->
                filter (fun e : K * V => eqb (fst e) k) d' = []).
      { induction d' as [|[k1 v1] d' IH']; simpl; intros Hni; [reflexivity|].
        destruct (eqb k1 k) eqn:E1.
        - apply eqb_eq in E1. subst. exfalso. apply Hni. now left.
        - apply IH'. intros Hin. apply Hni. now right. }
      now apply Hnone.
    + now apply IH.
Qed.
Lemma set_in_inv (k : K) (v : V) (d : list (K * V)) (e : K * V) :
  In e (PyDict.set eqb k v d) -> e = (k, v) \/ In e d.
Proof.
  induction d as [|[k0 v0] d IH]; simpl.
  - intuition.
  - destruct (eqb k0 k) eqn:E; simpl.
    + apply eqb_eq in E. subst. intuition.
    + intuition.
Qed.

Lemma update_cons (k : K) (v : V) (kvs d : list (K * V)) :
  PyDict.update eqb ((k, v) :: kvs) d
  = PyDict.update eqb kvs (PyDict.set eqb k v d).
Proof. reflexivity. Qed.

Lemma update_app (kvs1 kvs2 : list (K * V)) (d : list (K * V)) :
  PyDict.update eqb (kvs1 ++ kvs2) d
  = PyDict.update eqb kvs2 (PyDict.update eqb kvs1 d).
Proof. apply fold_left_app. Qed.

Lemma update_keys_in (kvs d : list (K * V)) (k : K) :
  In k (PyDict.keys (PyDict.update eqb kvs d))
  <-> In k (PyDict.keys d) \/ In k (map fst kvs).
Proof.
  revert d. induction kvs as [|[k0 v0] kvs IH]; intros d.
  - simpl. intuition.
  - rewrite update_cons, IH, keys_set_in. simpl. intuition.
Qed.

Lemma update_keys_NoDup (kvs d : list (K * V)) :
  NoDup (PyDict.keys d) -> NoDup (PyDict.keys (PyDict.update eqb kvs d)).
Proof.
  revert d. induction kvs as [|[k0 v0] kvs IH]; intros d H; [exact H|].
  rewrite update_cons. apply IH. now apply keys_set_NoDup.
Qed.

Lemma update_get_other (kvs d : list (K * V)) (k : K) :
  ~ In k (map fst kvs) ->
  PyDict.get eqb k (PyDict.update eqb kvs d) = PyDict.get eqb k d.
Proof.
  revert d. induction kvs as [|[k0 v0] kvs IH]; intros d H; [reflexivity|].
  rewrite update_cons, IH.
  - apply get_set_other. intros ->. apply H. now left.
  - intros Hin. apply H. now right.
Qed.

(** The value under a key is the last one assigned to it. *)
Lemma update_get_last (l1 l2 d : list (K * V)) (k : K) (v : V) :
  ~ In k (map fst l2) ->
  PyDict.get eqb k (PyDict.update eqb (l1 ++ (k, v) :: l2) d) = Some v.
Proof.
  intros H. rewrite update_app, update_cons, (update_get_other _ _ _ H).
  apply get_set_same.
Qed.

Lemma update_not_nil (kvs d : list (K * V)) :
  kvs <> [] \/ d <> [] -> PyDict.update eqb kvs d <> [].
Proof.
  revert d. induction kvs as [|[k0 v0] kvs IH]; intros d H.
  - destruct H as [H|H]; [now elim H | exact H].
  - rewrite update_cons. apply IH. right. apply set_not_nil.
Qed.

(** A new key goes after the others. *)
Lemma set_new (k : K) (v : V) (d : list (K * V)) :
  ~ In k (PyDict.keys d) -> PyDict.set eqb k v d = d ++ [(k, v)].
Proof.
  unfold PyDict.keys. induction d as [|[k0 v0] d IH]; simpl; intros H; [reflexivity|].
  destruct (eqb k0 k) eqn:E.
  - apply eqb_eq in E. subst. elim H. now left.
  - rewrite IH; [reflexivity|]. intros Hin. apply H. now right.
Qed.

(** Distinct keys are entered one after the other. *)
Lemma update_distinct (kvs d : list (K * V)) :
  NoDup (map fst (d ++ kvs)) -> PyDict.update eqb kvs d = d ++ kvs.
Proof.
  revert d. induction kvs as [|[k0 v0] kvs IH]; intros d H.
  - simpl. now rewrite app_nil_r.
  - rewrite update_cons.
    assert (Hn : ~ In k0 (PyDict.keys d)).
    { unfold PyDict.keys. rewrite map_app in H. simpl in H.
      apply NoDup_remove_2 in H. intros Hin. apply H, in_or_app. now left. }
    rewrite (set_new _ _ _ Hn), IH, <- app_assoc; [reflexivity|].
    now rewrite <- app_assoc.
Qed.

Lemma set_length (k : K) (v : V) (d : list (K * V)) :
  List.length (PyDict.set eqb k v d) <= S (List.length d).
Proof.
  induction d as [|[k0 v0] d IH]; simpl; [lia|].
  destruct (eqb k0 k); simpl; lia.
Qed.

Lemma set_length_present (k : K) (v : V) (d : list (K * V)) :
  In k (PyDict.keys d) -> List.length (PyDict.set eqb k v d) = List.length d.
Proof.
  unfold PyDict.keys. induction d as [|[k0 v0] d IH]; simpl; [intros []|].
  intros Hin. destruct (eqb k0 k) eqn:E; simpl; [reflexivity|].
  destruct Hin as [->|Hin]; [rewrite key_eqb_refl in E; discriminate|].
  now rewrite IH.
Qed.

Lemma update_length (kvs d : list (K * V)) :
  List.length (PyDict.update eqb kvs d) <= List.length kvs + List.length d.
Proof.
  revert d. induction kvs as [|[k0 v0] kvs IH]; intros d; [simpl; lia|].
  rewrite update_cons. specialize (IH (PyDict.set eqb k0 v0 d)).
  pose proof (set_length k0 v0 d). simpl. lia.
Qed.

Lemma update_in_inv (kvs d : list (K * V)) (e : K * V) :
  In e (PyDict.update eqb kvs d) -> In e kvs \/ In e d.
Proof.
  revert d. induction kvs as [|[k0 v0] kvs IH]; intros d H; [now right|].
  rewrite update_cons in H. apply IH in H. destruct H as [H|H].
  - left. now right.
  - apply set_in_inv in H. destruct H as [->|H]; [left; now left | now right].
Qed.

End DictFacts.

(** ** Strings *)

Lemma contains_neq_cons (c : ascii) (s : string) :
  contains_neq s = true -> contains_neq (String c s) = true.
Proof.
  intros H. destruct s as [|d s]; [discriminate|].
  change (contains_neq (String c (String d s)))
    with ((Ascii.eqb c "!" && Ascii.eqb d "=") || contains_neq (String d s)).
  rewrite H. apply orb_true_r.
Qed.

(** Removing the spaces keeps an occurrence of ["!="]. *)
Lemma contains_neq_remove_spaces (s : string) :
  contains_neq s = true -> contains_neq (remove_spaces s) = true.
Proof.
  induction s as [|c r IH]; [discriminate|].
  destruct r as [|d r']; [discriminate|].
  change (contains_neq (String c (String d r')))
    with ((Ascii.eqb c "!" && Ascii.eqb d "=") || contains_neq (String d r')).
  intros H. apply orb_true_iff in H. destruct H as [H|H].
  - apply andb_true_iff in H. destruct H as [Hc Hd].
    apply Ascii.eqb_eq in Hc, Hd. subst c d. reflexivity.
  - specialize (IH H).
    change (remove_spaces (String c (String d r')))
      with (if Ascii.eqb c " " then remove_spaces (String d r')
            else String c (remove_spaces (String d r'))).
    destruct (Ascii.eqb c " "); [assumption | now apply contains_neq_cons].
Qed.

(** A string with ["!="] splits in two pieces at least. *)
Lemma split_neq_contains (s : string) :
  contains_neq s = true -> snd (split_neq s) <> [].
Proof.
  induction s as [|c r IH]; [discriminate|].
  destruct r as [|d r']; [discriminate|].
  change (contains_neq (String c (String d r')))
    with ((Ascii.eqb c "!" && Ascii.eqb d "=") || contains_neq (String d r')).
  change (split_neq (String c (String d r')))
    with (if Ascii.eqb c "!" && Ascii.eqb d "="
          then let (p, ps) := split_neq r' in (EmptyString, p :: ps)
          else let (p, ps) := split_neq (String d r') in (String c p, ps)).
  destruct (Ascii.eqb c "!" && Ascii.eqb d "="); simpl orb; intros H.
  - destruct (split_neq r'); simpl; discriminate.
  - specialize (IH H). destruct (split_neq (String d r')); exact IH.
Qed.

(** The two pieces [splitEncoding[0]] and [splitEncoding[1]] exist. *)
Lemma split_list_two (p : string) :
  contains_neq p = true ->
  exists A B rest, split_list (remove_spaces p) = A :: B :: rest.
Proof.
  intros H. apply contains_neq_remove_spaces, split_neq_contains in H.
  unfold split_list. destruct (split_neq (remove_spaces p)) as [A [|B rest]].
  - now elim H.
  - now exists A, B, rest.
Qed.




Section Facts.
Set Default Proof Using "Type".

Variable Instruction : Type.
Variable Disassembled : Type.
Variable compareWithXs : string -> string -> bool.
Variable assignValues : variables_t -> Instruction -> list (string * string).
Variable disassemble : InstructionPage -> Instruction -> res (value Disassembled).
Variable int : string -> option Z.
Variable ARM_FILE_PATH : string.

Local Abbreviation matchValue := (matchValue compareWithXs).
Local Abbreviation matchVar := (matchVar compareWithXs).
Local Abbreviation row_loop := (row_loop compareWithXs).
Local Abbreviation decode :=
  (decode Instruction Disassembled compareWithXs assignValues disassemble).
Local Abbreviation resolve :=
  (resolve Instruction Disassembled compareWithXs assignValues disassemble).
Local Abbreviation rows_loop :=
  (rows_loop Instruction Disassembled compareWithXs assignValues disassemble).
Local Abbreviation row_target := (row_target ARM_FILE_PATH).
Local Abbreviation sect_rows := (sect_rows ARM_FILE_PATH).
Local Abbreviation init_sect := (init_sect int ARM_FILE_PATH).
Local Abbreviation sect_loop := (sect_loop int ARM_FILE_PATH).
Local Abbreviation node_step := (node_step int ARM_FILE_PATH).
Local Abbreviation nodes_loop := (nodes_loop int ARM_FILE_PATH).
Local Abbreviation init_node := (init_node int ARM_FILE_PATH).
Local Abbreviation EncodingTable_init := (EncodingTable_init int ARM_FILE_PATH).
Local Abbreviation read_variables := (read_variables int).
Local Abbreviation values_of := (values_of Instruction assignValues).

(** *** matchVar *)

(** The value of a negated pattern, with its two pieces. *)
Lemma matchValue_neq (p A B : string) (rest : list string) (v : string) :
  contains_neq p = true ->
  split_list (remove_spaces p) = A :: B :: rest ->
  matchValue (Some p) v =
    Ok (if Nat.eqb (len A) 0 then negb (compareWithXs B v)
        else compareWithXs A (slice_to (len A) v)
             && negb (compareWithXs B (slice_from (len A) v))).
Proof.
  intros Hc Hs. unfold matchValue. rewrite Hc, Hs. simpl.
  destruct (Nat.eqb (len A) 0); [reflexivity|].
  destruct (compareWithXs A (slice_to (len A) v)); reflexivity.
Qed.

(** [matchVar] raises no exception. *)
Lemma matchValue_total (pat : option string) (v : string) :
  exists b, matchValue pat v = Ok b.
Proof.
  destruct pat as [p|]; [|now exists true].
  destruct (contains_neq p) eqn:Hc.
  - destruct (split_list_two p Hc) as (A & B & rest & Hs).
    rewrite (matchValue_neq p A B rest v Hc Hs). eauto.
  - unfold matchValue. rewrite Hc. eauto.
Qed.

Lemma matchVar_cons (var : string * string) (vars : list (string * string))
      (tup : constraint) :
  matchVar (var :: vars) tup =
    if option_eqb String.eqb (Some (fst var)) (fst tup)
    then matchValue (snd tup) (snd var)
    else matchVar vars tup.
Proof. reflexivity. Qed.

Lemma matchVar_total (vars : list (string * string)) (tup : constraint) :
  exists b, matchVar vars tup = Ok b.
Proof.
  induction vars as [|var vars IH]; [now exists false|].
  rewrite matchVar_cons.
  destruct (option_eqb String.eqb (Some (fst var)) (fst tup));
    [apply matchValue_total | exact IH].
Qed.

(** The variable that [matchVar] finds is the first of that name. *)
Lemma matchVar_found (vars : list (string * string)) (f : string)
      (pat : option string) (v : string) :
  PyDict.get String.eqb f vars = Some v ->
  matchVar vars (Some f, pat) = matchValue pat v.
Proof.
  induction vars as [|[f' v'] vars IH]; simpl; [discriminate|].
  destruct (String.eqb f' f); [now intros [= ->] | exact IH].
Qed.

Lemma matchVar_absent (vars : list (string * string)) (tup : constraint) :
  (forall var, In var vars -> Some (fst var) <> fst tup) ->
  matchVar vars tup = Ok false.
Proof.
  induction vars as [|var vars IH]; intros H; [reflexivity|].
  rewrite matchVar_cons.
  destruct (option_eqb String.eqb (Some (fst var)) (fst tup)) eqn:E.
  - apply option_eqb_string_eq in E. now elim (H var (or_introl eq_refl)).
  - apply IH. intros var' Hin. apply H. now right.
Qed.

(** *** decode *)

(** The inner loop leaves True only when no constraint has failed. *)
Lemma row_loop_true (values : list (string * string)) (row : rowkey) (m : bool) :
  (forall tup, In tup row -> matchVar values tup = Ok true) ->
  row_loop values row m = Ok m.
Proof.
  revert m. induction row as [|tup row IH]; simpl; intros m H; [reflexivity|].
  rewrite (H tup (or_introl eq_refl)). simpl. apply IH.
  intros tup' Hin. apply H. now right.
Qed.

Lemma row_loop_false (values : list (string * string)) (row : rowkey) :
  row_loop values row false = Ok false.
Proof.
  induction row as [|tup row IH]; simpl; [reflexivity|].
  destruct (matchVar_total values tup) as [b ->]. simpl.
  now destruct b.
Qed.

Lemma row_loop_fails (values : list (string * string)) (row : rowkey) (m : bool) :
  (exists tup, In tup row /\ matchVar values tup = Ok false) ->
  row_loop values row m = Ok false.
Proof.
  revert m. induction row as [|tup row IH]; simpl; intros m (t & Hin & Hf).
  - contradiction.
  - destruct Hin as [->|Hin].
    + rewrite Hf. simpl. apply row_loop_false.
    + destruct (matchVar_total values tup) as [b ->]. simpl.
      apply IH. now exists t.
Qed.

Lemma decode_eq (t : EncodingTable) (instruction : Instruction) :
  decode t instruction =
    match directFile t with
    | Some tg => resolve tg instruction
    | None => rows_loop (values_of t instruction) instruction (entries t)
    end.
Proof.
  destruct t as [es im d]. unfold values_of. simpl.
  destruct d as [tg|]; [reflexivity|].
  induction es as [|[row tg] es IH]; simpl; [reflexivity|].
  destruct (row_loop (assignValues im instruction) row true) as [[|]|e];
    simpl; auto.
Qed.

Lemma rows_loop_skip (values : list (string * string)) (instruction : Instruction)
      (pre l : list (rowkey * target)) :
  (forall r, In r pre ->
     exists tup, In tup (fst r) /\ matchVar values tup = Ok false) ->
  rows_loop values instruction (pre ++ l) = rows_loop values instruction l.
Proof.
  induction pre as [|[row tg] pre IH]; simpl; intros H; [reflexivity|].
  rewrite (row_loop_fails values row true (H (row, tg) (or_introl eq_refl))).
  simpl. apply IH. intros r Hin. apply H. now right.
Qed.

(** A row is satisfied when every constraint in it matches; as [matchVar]
    raises nothing, a row that is not satisfied has a constraint that
    fails. *)
Lemma row_not_satisfied (values : list (string * string)) (row : rowkey) :
  ~ (forall tup, In tup row -> matchVar values tup = Ok true) ->
  exists tup, In tup row /\ matchVar values tup = Ok false.
Proof.
  induction row as [|tup row IH]; intros H.
  - elim H. intros tup [].
  - destruct (matchVar_total values tup) as [[|] Hb].
    + destruct IH as (t & Hin & Hf).
      * intros Hall. apply H. intros tup' [<-|Hin]; auto.
      * exists t. split; [now right | exact Hf].
    + exists tup. split; [now left | exact Hb].
Qed.

(** *** The claims on [matchVar] and [decode] *)

(** C1. For a table without [directFile] and any instruction, [decode]
    tries the rows in the order of the entries, which is the order of
    insertion, and its result is that of the target of the first row all of
    whose constraints match the extracted values (a table decodes further,
    a page disassembles, a name is returned): when no row before R1 is
    satisfied and R1 is, the result is that of the target of R1, whatever
    row R2 after R1 is satisfied as well. *)
Theorem decode_first_match (t : EncodingTable) (instruction : Instruction)
      (pre post : list (rowkey * target)) (row : rowkey) (tg : target) :
  directFile t = None ->
  entries t = pre ++ (row, tg) :: post ->
  (forall r, In r pre ->
     ~ (forall tup, In tup (fst r) ->
          matchVar (values_of t instruction) tup = Ok true)) ->
  (forall tup, In tup row -> matchVar (values_of t instruction) tup = Ok true) ->
  decode t instruction = resolve tg instruction
  /\ (forall row2 tg2, In (row2, tg2) post ->
        (forall tup, In tup row2 ->
           matchVar (values_of t instruction) tup = Ok true) ->
        decode t instruction = resolve tg instruction).
Proof.
  intros Hd He Hpre Hrow.
  assert (H : decode t instruction = resolve tg instruction).
  { rewrite decode_eq, Hd, He, rows_loop_skip.
    - simpl. now rewrite (row_loop_true _ _ true Hrow).
    - intros r Hin. apply row_not_satisfied. now apply Hpre. }
  split; [exact H | intros; exact H].
Qed.


(** C4. A constraint whose pattern is None succeeds when a variable of its
    name is among the extracted values, whatever the value. *)
Theorem matchVar_None (vars : list (string * string)) (f : string) :
  In f (map fst vars) ->
  matchVar vars (Some f, None) = Ok true.
Proof.
  intros Hin.
  apply (get_in_keys String.eqb String.eqb_eq f vars) in Hin.
  destruct (PyDict.get String.eqb f vars) as [v|] eqn:Hv; [|now elim Hin].
  now rewrite (matchVar_found vars f None v Hv).
Qed.

(** C5. A constraint on a name that no extracted value has fails, for
    every pattern, None as well: [matchVar] returns False and raises
    nothing. *)
Theorem matchVar_missing (vars : list (string * string))
      (name pat : option string) :
  (forall f, name = Some f -> ~ In f (map fst vars)) ->
  matchVar vars (name, pat) = Ok false.
Proof.
  intros H. apply matchVar_absent. intros var Hin E. simpl in E.
  apply (H (fst var)); [now symmetry | now apply in_map].
Qed.

(** C6. For a table without [directFile] and an instruction of which the
    extracted values satisfy no row completely, [decode] returns None; it
    is a returned value, no exception. *)
Theorem decode_no_match (t : EncodingTable) (instruction : Instruction) :
  directFile t = None ->
  (forall r, In r (entries t) ->
     ~ (forall tup, In tup (fst r) ->
          matchVar (values_of t instruction) tup = Ok true)) ->
  decode t instruction = Ok VNone.
Proof.
  intros Hd H. rewrite decode_eq, Hd.
  rewrite <- (app_nil_r (entries t)), rows_loop_skip; [reflexivity|].
  intros r Hin. apply row_not_satisfied. now apply H.
Qed.

(** *** The table of an [iclass_sect] *)

Lemma find_hd (tg : string) (e : Element) :
  find tg e = hd_error (findall tg e).
Proof.
  unfold find, findall.
  induction (children e) as [|c cs IH]; simpl; [reflexivity|].
  destruct (has_tag tg c); [reflexivity | exact IH].
Qed.

Lemma notNone_Ok {A : Type} (o : option A) (a : A) :
  notNone o = Ok a -> o = Some a.
Proof. destruct o; simpl; intros H; [now injection H as -> | discriminate]. Qed.

Lemma index_Ok {A : Type} (l : list A) (i : nat) (a : A) :
  index l i = Ok a -> nth_error l i = Some a.
Proof.
  unfold index. destruct (nth_error l i); simpl; intros H;
    [now injection H as -> | discriminate].
Qed.

(** The target of a row is a page or a name, never a table. *)
Lemma row_target_Ok (tr : Element) (d : target) :
  row_target tr = Ok d ->
  (forall f, PyDict.get String.eqb "iformfile" (attrib tr) = Some f ->
     d = TPage (mkInstructionPage (ARM_FILE_PATH ++ "/" ++ f)))
  /\ (PyDict.get String.eqb "iformfile" (attrib tr) = None ->
        exists n, PyDict.get String.eqb "encname" (attrib tr) = Some n
                  /\ d = TName n)
  /\ (forall t', d <> TTable t').
Proof.
  unfold Decoder.row_target, has_attrib, PyDict.mem, get_attrib.
  destruct (PyDict.get String.eqb "iformfile" (attrib tr)) as [f|]; simpl.
  - intros [= <-]. repeat split; try discriminate. now intros f' [= ->].
  - destruct (PyDict.get String.eqb "encname" (attrib tr)) as [n|]; simpl;
      [|discriminate].
    intros [= <-]. repeat split; try discriminate. now exists n.
Qed.

(** The loop over the rows assigns the pairs of key and target of the rows
    in their order. *)
Lemma sect_rows_update (tv : list (option string)) (trs : list Element)
      (E E' : list (rowkey * target)) :
  sect_rows tv trs E = Ok E' ->
  exists kts,
    Forall2 (fun tr kt =>
               row_mapping tv (findall "td" tr) 0 [] = Ok (fst kt)
               /\ row_target tr = Ok (snd kt)) trs kts
    /\ E' = PyDict.update rowkey_eqb kts E.
Proof.
  revert E. induction trs as [|tr trs IH]; simpl; intros E H.
  - injection H as <-. exists []. split; [constructor | reflexivity].
  - bind_inv H as key Hkey. bind_inv H as tg Htg.
    destruct (IH _ H) as (kts & HF & ->).
    exists ((key, tg) :: kts). split; [|reflexivity].
    constructor; [split; assumption | exact HF].
Qed.

Lemma init_sect_Ok (sect : Element) (t : EncodingTable) :
  init_sect sect = Ok t ->
  exists vars,
    read_variables sect = Ok vars
    /\ ((List.length (header_rows sect) = 1
         /\ exists tr rest d,
              data_rows sect = tr :: rest /\ row_target tr = Ok d
              /\ t = mkEncodingTable [] vars (Some d))
        \/ (List.length (header_rows sect) <> 1
            /\ exists es,
                 sect_rows (table_vars sect) (data_rows sect) [] = Ok es
                 /\ t = mkEncodingTable es vars None)).
Proof.
  unfold Decoder.init_sect. intros H.
  bind_inv H as vars Hvars. exists vars. split; [exact Hvars|].
  bind_inv H as it Hit. apply notNone_Ok in Hit.
  bind_inv H as thead Hthead. apply notNone_Ok in Hthead.
  unfold header_rows, data_rows, table_vars, header_rows.
  rewrite Hit, Hthead.
  destruct (Nat.eqb (List.length (findall "tr" thead)) 1) eqn:E.
  - left. apply Nat.eqb_eq in E. split; [exact E|].
    bind_inv H as tbody Htbody. apply notNone_Ok in Htbody. rewrite Htbody.
    bind_inv H as tr Htr. apply notNone_Ok in Htr. rewrite find_hd in Htr.
    bind_inv H as d Hd. injection H as <-.
    destruct (findall "tr" tbody) as [|tr' rest]; [discriminate|].
    injection Htr as ->. now exists tr, rest, d.
  - right. apply Nat.eqb_neq in E. split; [exact E|].
    bind_inv H as h1 Hh1. apply index_Ok in Hh1. rewrite Hh1.
    bind_inv H as body Hbody. apply notNone_Ok in Hbody. rewrite Hbody.
    bind_inv H as es Hes. injection H as <-. now exists es.
Qed.

(** No pair has a key that no row has. *)
Lemma rows_keys_notin (tv : list (option string)) (trs : list Element)
      (kts : list (rowkey * target)) (k : rowkey) :
  Forall2 (fun tr kt =>
             row_mapping tv (findall "td" tr) 0 [] = Ok (fst kt)
             /\ row_target tr = Ok (snd kt)) trs kts ->
  (forall tr, In tr trs -> row_mapping tv (findall "td" tr) 0 [] <> Ok k) ->
  ~ In k (map fst kts).
Proof.
  induction 1 as [|tr kt trs kts [Hk _] _ IH]; simpl; intros Hne; [intros []|].
  intros [E|Hin].
  - apply (Hne tr (or_introl eq_refl)). now rewrite Hk, E.
  - apply IH; [|exact Hin]. intros tr' Hin'. apply Hne. now right.
Qed.

(** What the table path of [init_sect] leaves under the key of a row. *)
Lemma sect_rows_row (tv : list (option string)) (l1 l2 : list Element)
      (tr : Element) (es : list (rowkey * target)) :
  sect_rows tv (l1 ++ tr :: l2) [] = Ok es ->
  exists key tg,
    row_mapping tv (findall "td" tr) 0 [] = Ok key
    /\ row_target tr = Ok tg
    /\ In key (PyDict.keys es)
    /\ NoDup (PyDict.keys es)
    /\ ((forall tr', In tr' l2 ->
           row_mapping tv (findall "td" tr') 0 [] <> Ok key) ->
        entries_get key es = Some tg).
Proof.
  intros H. apply sect_rows_update in H. destruct H as (kts & HF & ->).
  apply Forall2_app_inv_l in HF.
  destruct HF as (k1 & k2' & HF1 & HF2 & ->).
  inversion HF2 as [|? [key tg] ? k2 [Hk Ht] HF3]; subst. simpl in Hk, Ht.
  exists key, tg.
  split; [exact Hk|]. split; [exact Ht|]. split; [|split].
  - apply (update_keys_in rowkey_eqb rowkey_eqb_eq). right.
    rewrite map_app. apply in_or_app. right. now left.
  - apply (update_keys_NoDup rowkey_eqb rowkey_eqb_eq). constructor.
  - intros Hne. apply (update_get_last rowkey_eqb rowkey_eqb_eq).
    now apply (rows_keys_notin tv l2 k2 key HF3).
Qed.

(** The entries keep the order of insertion: when the keys of the rows
    are distinct, the entries are the pairs of key and target of the rows,
    in the order of the rows. *)
Lemma sect_rows_distinct (tv : list (option string)) (trs : list Element)
      (es : list (rowkey * target)) :
  sect_rows tv trs [] = Ok es ->
  NoDup (map (fun tr => row_mapping tv (findall "td" tr) 0 []) trs) ->
  Forall2 (fun tr e =>
             row_mapping tv (findall "td" tr) 0 [] = Ok (fst e)
             /\ row_target tr = Ok (snd e)) trs es.
Proof.
  intros H Hnd. apply sect_rows_update in H. destruct H as (kts & HF & ->).
  rewrite (update_distinct rowkey_eqb rowkey_eqb_eq); [exact HF|].
  cbn [app]. clear -HF Hnd.
  induction HF as [|tr kt trs kts [Hk _] HF IH]; cbn [map]; [constructor|].
  cbn [map] in Hnd. inversion Hnd as [|? ? Hn Hd]; subst.
  constructor; [|now apply IH].
  intros Hin. apply Hn. rewrite Hk.
  clear -HF Hin. induction HF as [|tr' kt' trs kts [Hk' _] _ IH]; [contradiction|].
  cbn [map] in *. destruct Hin as [E|Hin]; [left; now rewrite Hk', E | right; auto].
Qed.

(** C3, as amended.  The number of header rows of the table decides, not
    the number of its data rows.  With one header row, [directFile] is the
    target of the first data row, the page of its [iformfile] or else its
    [encname], no entry is made, and [decode] resolves that target for
    every instruction without matching anything.  With another number of
    header rows [directFile] stays None and every data row is entered
    under its key: the key is a key of the entries, and its target is that
    of the row unless a later row has the same key. *)
Theorem init_sect_header_rows (sect : Element) (t : EncodingTable) :
  init_sect sect = Ok t ->
  (List.length (header_rows sect) = 1 ->
   exists tr rest d,
     data_rows sect = tr :: rest
     /\ (forall f, PyDict.get String.eqb "iformfile" (attrib tr) = Some f ->
           d = TPage (mkInstructionPage (ARM_FILE_PATH ++ "/" ++ f)))
     /\ (PyDict.get String.eqb "iformfile" (attrib tr) = None ->
           exists n, PyDict.get String.eqb "encname" (attrib tr) = Some n
                     /\ d = TName n)
     /\ directFile t = Some d
     /\ entries t = []
     /\ forall instruction, decode t instruction = resolve d instruction)
  /\ (List.length (header_rows sect) <> 1 ->
      directFile t = None
      /\ forall l1 tr l2,
           data_rows sect = l1 ++ tr :: l2 ->
           exists key tg,
             row_key sect tr = Ok key
             /\ row_target tr = Ok tg
             /\ In key (PyDict.keys (entries t))
             /\ ((forall tr', In tr' l2 -> row_key sect tr' <> Ok key) ->
                 entries_get key (entries t) = Some tg)).
Proof.
  intros H. apply init_sect_Ok in H.
  destruct H as (vars & _ & [(H1 & tr & rest & d & Hrows & Hd & ->)
                           | (Hn & es & Hes & ->)]).
  - split; [intros _ | intros Hn; contradiction].
    exists tr, rest, d. destruct (row_target_Ok tr d Hd) as (Hf & He & _).
    split; [exact Hrows|]. split; [exact Hf|]. split; [exact He|].
    split; [reflexivity|]. split; [reflexivity|].
    intros instruction. now rewrite decode_eq.
  - split; [intros H1; contradiction | intros _].
    split; [reflexivity|]. intros l1 tr l2 Hrows. rewrite Hrows in Hes.
    destruct (sect_rows_row _ _ _ _ _ Hes) as (key & tg & Hk & Ht & Hin & _ & Hg).
    exists key, tg. unfold row_key. simpl. auto.
Qed.

(** C10. In a table that is entered row by row, two rows with the same
    key leave one entry under that key, with the target of the later row:
    the entries under the key of the rows R1 and R2, R2 being the last row
    with that key, are the single pair of the key and the target of R2. *)
Theorem init_sect_same_key (sect : Element) (t : EncodingTable)
      (l1 l2 l3 : list Element) (r1 r2 : Element) (k : rowkey) :
  init_sect sect = Ok t ->
  List.length (header_rows sect) <> 1 ->
  data_rows sect = l1 ++ r1 :: l2 ++ r2 :: l3 ->
  row_key sect r1 = Ok k ->
  row_key sect r2 = Ok k ->
  (forall r, In r l3 -> row_key sect r <> Ok k) ->
  exists tg2,
    row_target r2 = Ok tg2
    /\ entries_at k (entries t) = [(k, tg2)]
    /\ entries_get k (entries t) = Some tg2.
Proof.
  intros H Hn Hrows _ Hk2 Hlast. apply init_sect_Ok in H.
  destruct H as (vars & _ & [(H1 & _) | (_ & es & Hes & ->)]); [contradiction|].
  replace (l1 ++ r1 :: l2 ++ r2 :: l3) with ((l1 ++ r1 :: l2) ++ r2 :: l3)
    in Hrows by (now rewrite <- app_assoc).
  rewrite Hrows in Hes.
  destruct (sect_rows_row _ _ _ _ _ Hes) as (key & tg & Hk & Ht & _ & Hnd & Hg).
  unfold row_key in Hk2, Hlast. rewrite Hk2 in Hk. injection Hk as <-.
  exists tg. simpl. specialize (Hg Hlast). repeat split; try assumption.
  unfold entries_at.
  now apply (filter_key_NoDup rowkey_eqb rowkey_eqb_eq).
Qed.

(** *** The table of a node *)

(** [__init__] on a node, with the loop over [hierarchy.findall("node")]. *)
Lemma init_node_eq (root hierarchy : Element) :
  init_node root hierarchy =
    (variables <- read_variables hierarchy ;;
     entries <- nodes_loop (init_node root) root (findall "node" hierarchy) [] ;;
     Ok (mkEncodingTable entries variables None)).
Proof.
  destruct hierarchy as [tg a tx cs].
  cbn [Decoder.init_node]. unfold findall. cbn [children].
  destruct (read_variables (mkElement tg a tx cs)) as [vars|e]; [|reflexivity].
  cbn [bind].
  match goal with
  | |- bind (?loop cs []) _ = _ =>
      assert (Hloop : forall cs E,
                loop cs E = nodes_loop (init_node root) root
                              (filter (has_tag "node") cs) E)
  end.
  { clear. induction cs as [|c cs IH]; intros E; [reflexivity|].
    cbn [filter]. destruct (has_tag "node" c); [|apply IH].
    cbn [Decoder.nodes_loop].
    destruct (node_step (init_node root) root c E) as [E'|e]; [|reflexivity].
    cbn [bind]. apply IH. }
  now rewrite Hloop.
Qed.

Lemma nodes_loop_app (build : Element -> res EncodingTable) (root : Element)
      (l1 l2 : list Element) (E : list (rowkey * target)) :
  nodes_loop build root (l1 ++ l2) E =
    (E1 <- nodes_loop build root l1 E ;; nodes_loop build root l2 E1).
Proof.
  revert E. induction l1 as [|n l1 IH]; intros E; [reflexivity|].
  cbn [app Decoder.nodes_loop].
  destruct (node_step build root n E) as [E'|e]; [|reflexivity].
  cbn [bind]. apply IH.
Qed.

(** Without a section of that identifier, the loop over the sections
    leaves [found] and the entries as they are. *)
Lemma sect_loop_none (iclass : string) (key : rowkey) (sects : list Element)
      (found : bool) (E : list (rowkey * target)) :
  (forall s, In s sects ->
     exists id, PyDict.get String.eqb "id" (attrib s) = Some id /\ id <> iclass) ->
  sect_loop iclass key sects found E = Ok (found, E).
Proof.
  induction sects as [|s sects IH]; intros H; [reflexivity|].
  cbn [Decoder.sect_loop]. unfold get_attrib.
  destruct (H s (or_introl eq_refl)) as (id & -> & Hne). cbn [orRaise bind].
  apply String.eqb_neq in Hne. rewrite Hne.
  apply IH. intros s' Hin. apply H. now right.
Qed.

(** The loop over the sections assigns to the one key [key] only. *)
Lemma sect_loop_get_other (iclass : string) (key k : rowkey)
      (sects : list Element) (found f : bool) (E E' : list (rowkey * target)) :
  sect_loop iclass key sects found E = Ok (f, E') ->
  key <> k -> entries_get k E' = entries_get k E.
Proof.
  revert found E. induction sects as [|s sects IH]; intros found E H Hne.
  - now injection H as _ <-.
  - cbn [Decoder.sect_loop] in H. bind_inv H as id Hid.
    destruct (String.eqb id iclass).
    + bind_inv H as t Ht. rewrite (IH _ _ H Hne).
      now apply (get_set_other rowkey_eqb rowkey_eqb_eq).
    + now apply (IH _ _ H).
Qed.

Lemma node_step_get_other (build : Element -> res EncodingTable)
      (root node : Element) (E E' : list (rowkey * target)) (key k : rowkey) :
  node_step build root node E = Ok E' ->
  node_mapping node = Ok key ->
  key <> k -> entries_get k E' = entries_get k E.
Proof.
  unfold Decoder.node_step. intros H Hkey Hne. rewrite Hkey in H.
  cbn [bind] in H.
  destruct (has_attrib "groupname" node).
  - bind_inv H as t Ht. injection H as <-.
    now apply (get_set_other rowkey_eqb rowkey_eqb_eq).
  - destruct (has_attrib "iclass" node); [|now injection H as <-].
    bind_inv H as iclass Hic. bind_inv H as r Hr. destruct r as [f E1].
    cbn [fst snd] in H. rewrite <- (sect_loop_get_other _ _ _ _ _ _ _ _ Hr Hne).
    destruct (negb f); injection H as <-; [|reflexivity].
    now apply (get_set_other rowkey_eqb rowkey_eqb_eq).
Qed.

Lemma nodes_loop_get_other (build : Element -> res EncodingTable)
      (root : Element) (nodes : list Element) (E E' : list (rowkey * target))
      (k : rowkey) :
  nodes_loop build root nodes E = Ok E' ->
  (forall n, In n nodes -> node_mapping n <> Ok k) ->
  entries_get k E' = entries_get k E.
Proof.
  revert E. induction nodes as [|n nodes IH]; intros E H Hne.
  - now injection H as <-.
  - cbn [Decoder.nodes_loop] in H. bind_inv H as E1 HE1.
    rewrite (IH _ H); [|intros n' Hin; apply Hne; now right].
    assert (Hk : exists key, node_mapping n = Ok key).
    { unfold Decoder.node_step in HE1.
      destruct (node_mapping n) as [key|e]; [now exists key | discriminate]. }
    destruct Hk as (key & Hkey).
    apply (node_step_get_other _ _ _ _ _ key k HE1 Hkey).
    intros ->. now apply (Hne n (or_introl eq_refl)).
Qed.

(** The step for a child that names a class without section. *)
Lemma node_step_name (build : Element -> res EncodingTable)
      (root node : Element) (E : list (rowkey * target)) (key : rowkey)
      (iclass : string) :
  node_mapping node = Ok key ->
  has_attrib "groupname" node = false ->
  PyDict.get String.eqb "iclass" (attrib node) = Some iclass ->
  (forall s, In s (findall_below "iclass_sect" root) ->
     exists id, PyDict.get String.eqb "id" (attrib s) = Some id /\ id <> iclass) ->
  node_step build root node E = Ok (entries_set key (TName iclass) E).
Proof.
  intros Hkey Hg Hic Hnone.
  unfold Decoder.node_step. rewrite Hkey, Hg. cbn [bind].
  unfold has_attrib, PyDict.mem, get_attrib. rewrite Hic. cbn [orRaise bind].
  now rewrite (sect_loop_none iclass key _ false E Hnone).
Qed.

(** C7. For a child of a hierarchy that has no group name and names the
    class [iclass], when no [iclass_sect] of the document has that
    identifier (each has an identifier), the step of the builder for that
    child raises nothing and assigns the name [iclass] itself to the key of
    the child; the build of the hierarchy goes on with the other children
    from those entries, and the table it returns has the name under that
    key unless a later child has the same key. *)
Theorem node_step_unresolved (build : Element -> res EncodingTable)
      (root node : Element) (E : list (rowkey * target)) (key : rowkey)
      (iclass : string) :
  node_mapping node = Ok key ->
  has_attrib "groupname" node = false ->
  PyDict.get String.eqb "iclass" (attrib node) = Some iclass ->
  (forall s, In s (findall_below "iclass_sect" root) ->
     exists id, PyDict.get String.eqb "id" (attrib s) = Some id /\ id <> iclass) ->
  node_step build root node E = Ok (entries_set key (TName iclass) E)
  /\ entries_get key (entries_set key (TName iclass) E) = Some (TName iclass)
  /\ forall hierarchy pre post,
       findall "node" hierarchy = pre ++ node :: post ->
       init_node root hierarchy =
         (variables <- read_variables hierarchy ;;
          e1 <- nodes_loop (init_node root) root pre [] ;;
          e2 <- nodes_loop (init_node root) root post
                  (entries_set key (TName iclass) e1) ;;
          Ok (mkEncodingTable e2 variables None))
       /\ forall t,
            init_node root hierarchy = Ok t ->
            (forall n, In n post -> node_mapping n <> Ok key) ->
            entries_get key (entries t) = Some (TName iclass).
Proof.
  intros Hkey Hg Hic Hnone.
  assert (Hget : forall E0,
            entries_get key (entries_set key (TName iclass) E0) = Some (TName iclass)).
  { intros E0. apply (get_set_same rowkey_eqb rowkey_eqb_eq). }
  split; [now apply node_step_name|]. split; [apply Hget|].
  intros hierarchy pre post Hnodes.
  assert (Heq : init_node root hierarchy =
                  (variables <- read_variables hierarchy ;;
                   e1 <- nodes_loop (init_node root) root pre [] ;;
                   e2 <- nodes_loop (init_node root) root post
                           (entries_set key (TName iclass) e1) ;;
                   Ok (mkEncodingTable e2 variables None))).
  { rewrite init_node_eq, Hnodes.
    destruct (read_variables hierarchy) as [vars|e]; [|reflexivity].
    cbn [bind]. rewrite nodes_loop_app.
    destruct (nodes_loop (init_node root) root pre []) as [e1|e]; [|reflexivity].
    cbn [bind Decoder.nodes_loop].
    now rewrite (node_step_name (init_node root) root node e1 key iclass). }
  split; [exact Heq|].
  intros t Ht Hpost. rewrite Heq in Ht.
  bind_inv Ht as vars Hvars. bind_inv Ht as e1 He1. bind_inv Ht as e2 He2.
  injection Ht as <-. cbn [entries].
  rewrite (nodes_loop_get_other _ _ _ _ _ key He2 Hpost). apply Hget.
Qed.

(** *** The tables of a built tree *)

Lemma Element_children_ind (P : Element -> Prop) :
  (forall tg a tx cs, Forall P cs -> P (mkElement tg a tx cs)) ->
  forall e, P e.
Proof.
  intros H. fix IH 1. intros [tg a tx cs]. apply H.
  induction cs as [|c cs IHcs]; constructor; [apply IH | exact IHcs].
Qed.

Lemma subtables_eq (t : EncodingTable) :
  subtables t =
    t :: tables_below (entries t)
      ++ match directFile t with
         | Some (TTable t') => subtables t'
         | _ => []
         end.
Proof.
  destruct t as [es im d]. cbn [subtables entries directFile].
  f_equal. f_equal. unfold tables_below.
  induction es as [|[k [t'|pg|nm]] es IH]; cbn [flat_map snd];
    [reflexivity | now rewrite IH | exact IH | exact IH].
Qed.

Lemma tables_below_in (E : list (rowkey * target)) (n : EncodingTable) :
  In n (tables_below E) ->
  exists k t', In (k, TTable t') E /\ In n (subtables t').
Proof.
  unfold tables_below. intros H. apply in_flat_map in H.
  destruct H as ([k tg] & Hin & Hn). cbn [snd] in Hn.
  destruct tg as [t'|pg|nm]; [|contradiction|contradiction].
  now exists k, t'.
Qed.

Lemma tables_below_flat (E : list (rowkey * target)) :
  (forall k t', ~ In (k, TTable t') E) -> tables_below E = [].
Proof.
  intros H. destruct (tables_below E) as [|n l] eqn:Hb; [reflexivity|].
  destruct (tables_below_in E n) as (k & t' & Hin & _).
  - rewrite Hb. now left.
  - now elim (H k t').
Qed.

(** The table of an [iclass_sect] has no table below it; it has a
    [directFile] or entries exactly when the body of its table has a
    row, and never both. *)
Lemma init_sect_shape (sect : Element) (t : EncodingTable) :
  init_sect sect = Ok t ->
  (directFile t <> None -> entries t = [])
  /\ (has_rows sect true = true -> entries t <> [] \/ directFile t <> None)
  /\ (has_rows sect true = false -> entries t = [] /\ directFile t = None)
  /\ subtables t = [t].
Proof.
  intros H. apply init_sect_Ok in H. unfold has_rows.
  destruct H as (vars & _ & [(H1 & tr & rest & d & Hrows & Hd & ->)
                           | (Hn & es & Hes & ->)]).
  - rewrite Hrows. cbn [entries directFile List.length Nat.eqb negb].
    split; [reflexivity|]. split; [right; discriminate|].
    split; [discriminate|].
    rewrite subtables_eq. cbn [entries directFile tables_below flat_map app].
    destruct (row_target_Ok tr d Hd) as (_ & _ & Hnt).
    destruct d as [t'|pg|nm]; [now elim (Hnt t') | reflexivity | reflexivity].
  - apply sect_rows_update in Hes. destruct Hes as (kts & HF & ->).
    cbn [entries directFile].
    split; [intros Hd; now elim Hd|]. split; [|split].
    + intros Hr. left.
      apply (update_not_nil rowkey_eqb). left. intros ->.
      inversion HF as [E1|]; subst. rewrite <- E1 in Hr. discriminate.
    + intros Hr. split; [|reflexivity].
      destruct (data_rows sect); [|discriminate].
      inversion HF. reflexivity.
    + rewrite subtables_eq. cbn [entries directFile]. rewrite app_nil_r.
      rewrite tables_below_flat; [reflexivity|].
      intros k t' Hin.
      apply (update_in_inv rowkey_eqb rowkey_eqb_eq) in Hin.
      destruct Hin as [Hin|[]].
      clear Hn. induction HF as [|tr kt trs kts' [_ Ht] _ IH]; [contradiction|].
      destruct Hin as [->|Hin]; [|now apply IH].
      cbn [snd] in Ht. destruct (row_target_Ok tr _ Ht) as (_ & _ & Hnt).
      now elim (Hnt t').
Qed.

Section Loops.
Set Default Proof Using "Type*".

(** A property of tables that the tables of the sections have. *)
Variable Good : EncodingTable -> Prop.
Hypothesis Good_sect : forall s t, init_sect s = Ok t -> Good t.

Lemma sect_loop_inv (iclass : string) (key : rowkey) (sects : list Element)
      (found f : bool) (E E' : list (rowkey * target)) :
  sect_loop iclass key sects found E = Ok (f, E') ->
  (forall k t', In (k, TTable t') E -> Good t') ->
  (forall k t', In (k, TTable t') E' -> Good t')
  /\ (E <> [] -> E' <> [])
  /\ (f = true -> found = true \/ E' <> []).
Proof.
  revert found E. induction sects as [|s sects IH]; intros found E H HE.
  - injection H as <- <-. auto.
  - cbn [Decoder.sect_loop] in H. bind_inv H as id Hid.
    destruct (String.eqb id iclass).
    + bind_inv H as t Ht. apply IH in H.
      * destruct H as (H1 & H2 & _).
        assert (Hne : E' <> []) by (apply H2, (set_not_nil rowkey_eqb)).
        auto.
      * intros k t' Hin. apply (set_in_inv rowkey_eqb rowkey_eqb_eq) in Hin.
        destruct Hin as [[= _ ->]|Hin]; [now apply (Good_sect s) | now apply (HE k)].
    + now apply IH in H.
Qed.

Lemma node_step_inv (build : Element -> res EncodingTable) (root node : Element)
      (E E' : list (rowkey * target)) :
  node_step build root node E = Ok E' ->
  (forall t, build node = Ok t -> Good t) ->
  (forall k t', In (k, TTable t') E -> Good t') ->
  (forall k t', In (k, TTable t') E' -> Good t')
  /\ (E <> [] -> E' <> [])
  /\ (if has_attrib "groupname" node || has_attrib "iclass" node
      then E' <> [] else E' = E).
Proof.
  unfold Decoder.node_step. intros H Hb HE. bind_inv H as key Hkey.
  destruct (has_attrib "groupname" node); cbn [orb].
  - bind_inv H as t Ht. injection H as <-.
    assert (Hne : entries_set key (TTable t) E <> [])
      by apply (set_not_nil rowkey_eqb).
    split; [|auto].
    intros k t' Hin. apply (set_in_inv rowkey_eqb rowkey_eqb_eq) in Hin.
    destruct Hin as [[= _ ->]|Hin]; [now apply Hb | now apply (HE k)].
  - destruct (has_attrib "iclass" node); [|injection H as <-; auto].
    bind_inv H as iclass Hic. bind_inv H as r Hr. destruct r as [f E1].
    cbn [fst snd] in H.
    destruct (sect_loop_inv _ _ _ _ _ _ _ Hr HE) as (H1 & H2 & H3).
    destruct f; cbn [negb] in H; injection H as <-.
    + split; [exact H1|]. split; [exact H2|].
      destruct (H3 eq_refl) as [Hf|Hne]; [discriminate | exact Hne].
    + assert (Hne : entries_set key (TName iclass) E1 <> [])
        by apply (set_not_nil rowkey_eqb).
      split; [|auto].
      intros k t' Hin. apply (set_in_inv rowkey_eqb rowkey_eqb_eq) in Hin.
      destruct Hin as [Hin|Hin]; [discriminate | now apply (H1 k)].
Qed.

Lemma nodes_loop_inv (build : Element -> res EncodingTable) (root : Element)
      (nodes : list Element) (E E' : list (rowkey * target)) :
  nodes_loop build root nodes E = Ok E' ->
  (forall n t, In n nodes -> build n = Ok t -> Good t) ->
  (forall k t', In (k, TTable t') E -> Good t') ->
  (forall k t', In (k, TTable t') E' -> Good t')
  /\ (E <> [] -> E' <> [])
  /\ (match filter (fun n => has_attrib "groupname" n || has_attrib "iclass" n)
                   nodes with
      | [] => E' = E
      | _ :: _ => E' <> []
      end).
Proof.
  revert E. induction nodes as [|n nodes IH]; intros E H Hb HE.
  - injection H as <-. cbn [filter]. auto.
  - cbn [Decoder.nodes_loop] in H. bind_inv H as E1 HE1.
    destruct (node_step_inv _ _ _ _ _ HE1 (fun t => Hb n t (or_introl eq_refl)) HE)
      as (H1 & H2 & H3).
    destruct (IH E1 H (fun n' t Hin => Hb n' t (or_intror Hin)) H1)
      as (G1 & G2 & G3).
    split; [exact G1|]. split; [auto|].
    cbn [filter].
    destruct (has_attrib "groupname" n || has_attrib "iclass" n).
    + auto.
    + subst E1. exact G3.
Qed.

End Loops.

(** What holds of a table [n] built in the document [root]: not both a
    [directFile] and entries, and one of them exactly when the fragment
    it is built from has something to store. *)
Local Abbreviation built_by root n :=
  ((directFile n <> None -> entries n = [])
   /\ exists h' sect',
        EncodingTable_init root h' sect' = Ok n
        /\ (has_rows h' sect' = true ->
            entries n <> [] \/ directFile n <> None)
        /\ (has_rows h' sect' = false ->
            entries n = [] /\ directFile n = None)).

Lemma init_sect_built (root sect : Element) (t : EncodingTable) :
  init_sect sect = Ok t ->
  forall n, In n (subtables t) -> built_by root n.
Proof.
  intros H n Hn.
  destruct (init_sect_shape sect t H) as (H1 & H2 & H3 & Hs).
  rewrite Hs in Hn. destruct Hn as [<-|[]].
  split; [exact H1|]. exists sect, true. auto.
Qed.

Lemma init_node_built (hierarchy : Element) :
  forall root t,
    init_node root hierarchy = Ok t ->
    forall n, In n (subtables t) -> built_by root n.
Proof.
  induction hierarchy as [tg a tx cs IHcs] using Element_children_ind.
  intros root t Ht n Hn. pose proof Ht as Hinit.
  rewrite init_node_eq in Ht.
  bind_inv Ht as vars Hvars. bind_inv Ht as E HE. injection Ht as <-.
  destruct (nodes_loop_inv
              (fun t' => forall n, In n (subtables t') -> built_by root n)
              (init_sect_built root)
              (init_node root) root _ [] E HE) as (H1 & _ & H3).
  - intros n' t' Hin Ht'. rewrite Forall_forall in IHcs.
    apply (IHcs n'); [|exact Ht'].
    unfold findall in Hin. apply filter_In in Hin. exact (proj1 Hin).
  - intros k t' [].
  - rewrite subtables_eq in Hn. cbn [entries directFile] in Hn.
    rewrite app_nil_r in Hn. destruct Hn as [<-|Hn].
    + cbn [entries directFile]. split; [intros Hd; now elim Hd|].
      exists (mkElement tg a tx cs), false. split; [exact Hinit|].
      unfold has_rows, stored_nodes.
      destruct (filter (fun n => has_attrib "groupname" n || has_attrib "iclass" n)
                       (findall "node" (mkElement tg a tx cs))).
      * split; [discriminate | auto].
      * split; [auto | discriminate].
    + apply tables_below_in in Hn. destruct Hn as (k & t' & Hin & Hn).
      now apply (H1 k t').
Qed.

(** The tables that the loop over the sections enters are the tables of
    sections of the list with the identifier of the class. *)
Lemma sect_loop_from (iclass : string) (key : rowkey) (sects : list Element)
      (found f : bool) (E E' : list (rowkey * target)) :
  sect_loop iclass key sects found E = Ok (f, E') ->
  forall k t', In (k, TTable t') E' ->
    In (k, TTable t') E
    \/ exists s, In s sects
                 /\ PyDict.get String.eqb "id" (attrib s) = Some iclass
                 /\ init_sect s = Ok t'.
Proof.
  revert found E. induction sects as [|s0 sects IH]; intros found E H k t' Hin.
  - injection H as _ <-. now left.
  - cbn [Decoder.sect_loop] in H. bind_inv H as id Hid.
    unfold get_attrib in Hid.
    destruct (PyDict.get String.eqb "id" (attrib s0)) as [id0|] eqn:Eid;
      [|discriminate].
    injection Hid as ->.
    destruct (String.eqb id iclass) eqn:Eq.
    + apply String.eqb_eq in Eq. subst id. bind_inv H as t Ht.
      destruct (IH _ _ H k t' Hin) as [Hin'|(s & Hs & Hids & Hts)].
      * apply (set_in_inv rowkey_eqb rowkey_eqb_eq) in Hin'.
        destruct Hin' as [[= _ ->]|Hin']; [right | now left].
        exists s0. split; [now left | auto].
      * right. exists s. split; [now right | auto].
    + destruct (IH _ _ H k t' Hin) as [Hin'|(s & Hs & Hids & Hts)]; [now left|].
      right. exists s. split; [now right | auto].
Qed.

(** The table that the step for a child enters is the table of that child,
    when it has a group name, or else the table of a section of the
    document with the identifier of its class. *)
Lemma node_step_from (build : Element -> res EncodingTable)
      (root node : Element) (E E' : list (rowkey * target)) :
  node_step build root node E = Ok E' ->
  forall k t', In (k, TTable t') E' ->
    In (k, TTable t') E
    \/ (has_attrib "groupname" node = true /\ build node = Ok t')
    \/ (has_attrib "groupname" node = false
        /\ exists iclass s,
             PyDict.get String.eqb "iclass" (attrib node) = Some iclass
             /\ In s (findall_below "iclass_sect" root)
             /\ PyDict.get String.eqb "id" (attrib s) = Some iclass
             /\ init_sect s = Ok t').
Proof.
  unfold Decoder.node_step. intros H k t' Hin. bind_inv H as key Hkey.
  destruct (has_attrib "groupname" node).
  - bind_inv H as t Ht. injection H as <-.
    apply (set_in_inv rowkey_eqb rowkey_eqb_eq) in Hin.
    destruct Hin as [[= _ ->]|Hin]; [right; left; auto | now left].
  - destruct (has_attrib "iclass" node); [|injection H as <-; now left].
    bind_inv H as iclass Hic. bind_inv H as r Hr. destruct r as [f E1].
    cbn [fst snd] in H. unfold get_attrib in Hic.
    destruct (PyDict.get String.eqb "iclass" (attrib node)) as [ic|] eqn:Eic;
      [|discriminate].
    injection Hic as ->.
    assert (HE1 : In (k, TTable t') E1 ->
              In (k, TTable t') E
              \/ (false = true /\ build node = Ok t')
              \/ (false = false
                  /\ exists iclass0 s,
                       Some iclass = Some iclass0
                       /\ In s (findall_below "iclass_sect" root)
                       /\ PyDict.get String.eqb "id" (attrib s) = Some iclass0
                       /\ init_sect s = Ok t')).
    { intros Hin1.
      destruct (sect_loop_from _ _ _ _ _ _ _ Hr k t' Hin1)
        as [Hin'|(s & Hs & Hid & Hts)]; [now left|].
      right. right. split; [reflexivity|]. now exists iclass, s. }
    destruct (negb f); injection H as <-; [|now apply HE1].
    apply (set_in_inv rowkey_eqb rowkey_eqb_eq) in Hin.
    destruct Hin as [Hin|Hin]; [discriminate | now apply HE1].
Qed.

Lemma nodes_loop_from (build : Element -> res EncodingTable) (root : Element)
      (nodes : list Element) (E E' : list (rowkey * target)) :
  nodes_loop build root nodes E = Ok E' ->
  forall k t', In (k, TTable t') E' ->
    In (k, TTable t') E
    \/ exists node,
         In node nodes
         /\ ((has_attrib "groupname" node = true /\ build node = Ok t')
             \/ (has_attrib "groupname" node = false
                 /\ exists iclass s,
                      PyDict.get String.eqb "iclass" (attrib node) = Some iclass
                      /\ In s (findall_below "iclass_sect" root)
                      /\ PyDict.get String.eqb "id" (attrib s) = Some iclass
                      /\ init_sect s = Ok t')).
Proof.
  revert E. induction nodes as [|n nodes IH]; intros E H k t' Hin.
  - injection H as <-. now left.
  - cbn [Decoder.nodes_loop] in H. bind_inv H as E1 HE1.
    destruct (IH _ H k t' Hin) as [Hin1|(node & Hn & Hfrom)].
    + destruct (node_step_from _ _ _ _ _ HE1 k t' Hin1) as [Hin0|Hfrom];
        [now left|].
      right. exists n. split; [now left | exact Hfrom].
    + right. exists node. split; [now right | exact Hfrom].
Qed.

(** One call of the builder: never both a [directFile] and entries, and
    one of them exactly when the fragment of the call has something to
    store. *)
Lemma init_shape (root hierarchy : Element) (sect : bool) (t : EncodingTable) :
  EncodingTable_init root hierarchy sect = Ok t ->
  (directFile t <> None -> entries t = [])
  /\ (has_rows hierarchy sect = true -> entries t <> [] \/ directFile t <> None)
  /\ (has_rows hierarchy sect = false -> entries t = [] /\ directFile t = None).
Proof.
  destruct sect; cbn [Decoder.EncodingTable_init]; intros H.
  - destruct (init_sect_shape hierarchy t H) as (H1 & H2 & H3 & _). auto.
  - rewrite init_node_eq in H.
    bind_inv H as vars Hvars. bind_inv H as E HE. injection H as <-.
    destruct (nodes_loop_inv (fun _ => True) (fun _ _ _ => I)
                (init_node root) root _ [] E HE) as (_ & _ & H3).
    + intros; exact I.
    + intros k t' [].
    + cbn [entries directFile]. split; [intros Hd; now elim Hd|].
      unfold has_rows, stored_nodes.
      destruct (filter (fun n => has_attrib "groupname" n || has_attrib "iclass" n)
                       (findall "node" hierarchy)).
      * split; [discriminate | auto].
      * split; [auto | discriminate].
Qed.

(** Every table of the tree built for a hierarchy is what the builder
    returns for a fragment that the hierarchy leads to. *)
Lemma init_node_from (hierarchy : Element) :
  forall root t,
    init_node root hierarchy = Ok t ->
    forall n, In n (subtables t) ->
      exists h' sect',
        fragment_of root hierarchy false h' sect'
        /\ EncodingTable_init root h' sect' = Ok n.
Proof.
  induction hierarchy as [tg a tx cs IHcs] using Element_children_ind.
  intros root t Ht n Hn. pose proof Ht as Hinit.
  rewrite init_node_eq in Ht.
  bind_inv Ht as vars Hvars. bind_inv Ht as E HE. injection Ht as <-.
  rewrite subtables_eq in Hn. cbn [entries directFile] in Hn.
  rewrite app_nil_r in Hn. destruct Hn as [<-|Hn].
  - exists (mkElement tg a tx cs), false. split; [constructor | exact Hinit].
  - apply tables_below_in in Hn. destruct Hn as (k & t' & Hin & Hn).
    destruct (nodes_loop_from _ _ _ _ _ HE k t' Hin)
      as [[]|(node & Hnode & [(Hg & Hb)|(Hg & ic & s & Hic & Hs & Hid & Hts)])].
    + assert (Hc : In node cs).
      { unfold findall in Hnode. apply filter_In in Hnode. exact (proj1 Hnode). }
      rewrite Forall_forall in IHcs.
      destruct (IHcs node Hc root t' Hb n Hn) as (h' & sect' & Hf & Hinit').
      exists h', sect'. split; [|exact Hinit'].
      exact (fragment_group root _ node h' sect' Hnode Hg Hf).
    + destruct (init_sect_shape s t' Hts) as (_ & _ & _ & Hsub).
      rewrite Hsub in Hn. destruct Hn as [<-|[]].
      exists s, true. split; [|exact Hts].
      exact (fragment_sect root _ node s ic Hnode Hg Hic Hs Hid).
Qed.

(** C9, as amended.  The table that the builder returns for a fragment has
    no entries when its [directFile] is set; it has entries or a
    [directFile] when that fragment has something to store (a row in the
    body of the table of an [iclass_sect], a child of a hierarchy with a
    group name or a class), and neither when the fragment has nothing to
    store.  The same holds of every table of the tree below it, for the
    fragment that it is built from: a fragment that the build of the root
    fragment leads to, and for which the builder returns that table. *)
Theorem built_tables_shape (root hierarchy : Element) (sect : bool)
      (t : EncodingTable) :
  EncodingTable_init root hierarchy sect = Ok t ->
  ((directFile t <> None -> entries t = [])
   /\ (has_rows hierarchy sect = true ->
       entries t <> [] \/ directFile t <> None)
   /\ (has_rows hierarchy sect = false ->
       entries t = [] /\ directFile t = None))
  /\ forall n, In n (subtables t) ->
       exists h' sect',
         fragment_of root hierarchy sect h' sect'
         /\ EncodingTable_init root h' sect' = Ok n
         /\ (directFile n <> None -> entries n = [])
         /\ (has_rows h' sect' = true ->
             entries n <> [] \/ directFile n <> None)
         /\ (has_rows h' sect' = false ->
             entries n = [] /\ directFile n = None).
Proof.
  intros H. split; [exact (init_shape root hierarchy sect t H)|].
  intros n Hn.
  assert (Hfrom : exists h' sect',
            fragment_of root hierarchy sect h' sect'
            /\ EncodingTable_init root h' sect' = Ok n).
  { destruct sect; cbn [Decoder.EncodingTable_init] in H.
    - destruct (init_sect_shape hierarchy t H) as (_ & _ & _ & Hsub).
      rewrite Hsub in Hn. destruct Hn as [<-|[]].
      exists hierarchy, true. split; [constructor | exact H].
    - exact (init_node_from hierarchy root t H n Hn). }
  destruct Hfrom as (h' & sect' & Hf & Hinit).
  exists h', sect'. split; [exact Hf|]. split; [exact Hinit|].
  exact (init_shape root h' sect' n Hinit).
Qed.

(** *** Several sections of one identifier *)

Lemma sect_loop_app (iclass : string) (key : rowkey) (l1 l2 : list Element)
      (found : bool) (E : list (rowkey * target)) :
  sect_loop iclass key (l1 ++ l2) found E =
    (r <- sect_loop iclass key l1 found E ;;
     sect_loop iclass key l2 (fst r) (snd r)).
Proof.
  revert found E. induction l1 as [|s l1 IH]; intros found E; [reflexivity|].
  cbn [app Decoder.sect_loop].
  destruct (get_attrib "id" s) as [id|e]; [|reflexivity]. cbn [bind].
  destruct (String.eqb id iclass); [|apply IH].
  destruct (init_sect s) as [t|e]; [|reflexivity]. cbn [bind]. apply IH.
Qed.

(** The loop over the sections leaves under the key the table of the last
    section of the identifier. *)
Lemma sect_loop_last (iclass : string) (key : rowkey) (l1 l2 : list Element)
      (s : Element) (t : EncodingTable) (found f1 : bool)
      (E E1 : list (rowkey * target)) :
  sect_loop iclass key l1 found E = Ok (f1, E1) ->
  PyDict.get String.eqb "id" (attrib s) = Some iclass ->
  init_sect s = Ok t ->
  (forall s', In s' l2 ->
     exists id, PyDict.get String.eqb "id" (attrib s') = Some id /\ id <> iclass) ->
  sect_loop iclass key (l1 ++ s :: l2) found E
  = Ok (true, entries_set key (TTable t) E1)
  /\ entries_get key (entries_set key (TTable t) E1) = Some (TTable t).
Proof.
  intros H1 Hid Ht Hl2. split.
  - rewrite sect_loop_app, H1. cbn [bind fst snd Decoder.sect_loop].
    unfold get_attrib. rewrite Hid. cbn [orRaise bind].
    rewrite String.eqb_refl, Ht. cbn [bind].
    now apply sect_loop_none.
  - apply (get_set_same rowkey_eqb rowkey_eqb_eq).
Qed.


(** *** Further facts on [decode] *)

Lemma EncodingTable_tree_ind (P : EncodingTable -> Prop) :
  (forall es im d,
     (forall k t', In (k, TTable t') es -> P t') ->
     (forall t', d = Some (TTable t') -> P t') ->
     P (mkEncodingTable es im d)) ->
  forall t, P t.
Proof.
  intros H. fix IH 1. intros [es im d].
  assert (Hes : Forall (fun e => match snd e with
                                 | TTable t' => P t'
                                 | _ => True
                                 end) es).
  { induction es as [|[k [t'|pg|nm]] es IHes]; constructor;
      [apply IH | | exact I | | exact I | ]; exact IHes. }
  assert (Hd : match d with
               | Some (TTable t') => P t'
               | _ => True
               end).
  { destruct d as [[t'|pg|nm]|]; [apply IH | exact I | exact I | exact I]. }
  apply H.
  - intros k t' Hin. rewrite Forall_forall in Hes. exact (Hes _ Hin).
  - intros t' ->. exact Hd.
Qed.

Lemma subtables_self (t : EncodingTable) : In t (subtables t).
Proof. rewrite subtables_eq. now left. Qed.

Lemma subtables_entry (t t' : EncodingTable) (k : rowkey) :
  In (k, TTable t') (entries t) -> incl (subtables t') (subtables t).
Proof.
  intros Hin n Hn. rewrite (subtables_eq t). right. apply in_or_app. left.
  unfold tables_below. apply in_flat_map. exists (k, TTable t'). now split.
Qed.

Lemma subtables_direct (t t' : EncodingTable) :
  directFile t = Some (TTable t') -> incl (subtables t') (subtables t).
Proof.
  intros Hd n Hn. rewrite (subtables_eq t), Hd. right. apply in_or_app. now right.
Qed.

Lemma tree_targets_incl (t t' : EncodingTable) :
  incl (subtables t') (subtables t) -> incl (tree_targets t') (tree_targets t).
Proof.
  intros H tg Hin. unfold tree_targets in *. apply in_flat_map in Hin.
  destruct Hin as (n & Hn & Htg). apply in_flat_map. exists n. split; auto.
Qed.

Lemma own_targets_tree (t : EncodingTable) :
  incl (own_targets t) (tree_targets t).
Proof.
  intros tg Hin. unfold tree_targets. apply in_flat_map.
  exists t. split; [apply subtables_self | exact Hin].
Qed.

Lemma row_loop_total (values : list (string * string)) (row : rowkey) (m : bool) :
  exists b, row_loop values row m = Ok b.
Proof.
  revert m. induction row as [|tup row IH]; intros m; [now exists m|].
  cbn [Decoder.row_loop]. destruct (matchVar_total values tup) as [b ->].
  cbn [bind]. apply IH.
Qed.

(** The loop over the rows ends without a row, or resolves the value of one
    of them. *)
Lemma rows_loop_result (values : list (string * string))
      (instruction : Instruction) (l : list (rowkey * target)) :
  rows_loop values instruction l = Ok VNone
  \/ exists row tg, In (row, tg) l
                    /\ rows_loop values instruction l = resolve tg instruction.
Proof.
  induction l as [|[row tg] l IH]; [now left|].
  cbn [Decoder.rows_loop].
  destruct (row_loop_total values row true) as [[|] ->]; cbn [bind].
  - right. exists row, tg. split; [now left | reflexivity].
  - destruct IH as [IH|(row' & tg' & Hin & IH)]; [now left|].
    right. exists row', tg'. split; [now right | exact IH].
Qed.

(** X1. Whatever the table and the instruction, [decode] returns None, or
    a name that the tree holds, or what [disassemble] gives for a page
    that the tree holds: it returns no other value, and raises only what
    the [disassemble] of one of its pages raises. *)
Theorem decode_result (t : EncodingTable) (instruction : Instruction) :
  decode t instruction = Ok VNone
  \/ (exists s, In (TName s) (tree_targets t)
                /\ decode t instruction = Ok (VStr s))
  \/ (exists p, In (TPage p) (tree_targets t)
                /\ decode t instruction = disassemble p instruction).
Proof.
  induction t as [es im d IHes IHd] using EncodingTable_tree_ind.
  set (t := mkEncodingTable es im d).
  assert (Hres : forall tg, In tg (own_targets t) ->
            resolve tg instruction = Ok VNone
            \/ (exists s, In (TName s) (tree_targets t)
                          /\ resolve tg instruction = Ok (VStr s))
            \/ (exists p, In (TPage p) (tree_targets t)
                          /\ resolve tg instruction = disassemble p instruction)).
  { intros [t'|pg|nm] Hin.
    - assert (Hsub : incl (tree_targets t') (tree_targets t)).
      { apply tree_targets_incl. unfold own_targets in Hin.
        apply in_app_or in Hin. destruct Hin as [Hin|Hin].
        - apply in_map_iff in Hin. destruct Hin as ([k tg] & E & Hin).
          cbn [snd] in E. subst tg. now apply (subtables_entry t t' k).
        - apply subtables_direct. cbn [directFile t] in *.
          destruct d as [tg|]; [|contradiction].
          destruct Hin as [->|[]]. reflexivity. }
      assert (IH : decode t' instruction = Ok VNone
                   \/ (exists s, In (TName s) (tree_targets t')
                                 /\ decode t' instruction = Ok (VStr s))
                   \/ (exists p, In (TPage p) (tree_targets t')
                                 /\ decode t' instruction
                                    = disassemble p instruction)).
      { unfold own_targets in Hin. apply in_app_or in Hin.
        destruct Hin as [Hin|Hin].
        - apply in_map_iff in Hin. destruct Hin as ([k tg] & E & Hin).
          cbn [snd] in E. subst tg. exact (IHes k t' Hin).
        - cbn [directFile t] in Hin. destruct d as [tg|]; [|contradiction].
          destruct Hin as [->|[]]. now apply IHd. }
      cbn [Decoder.resolve].
      destruct IH as [IH|[(s & Hs & IH)|(p & Hp & IH)]]; auto.
      + right. left. exists s. auto.
      + right. right. exists p. auto.
    - right. right. exists pg. split; [now apply own_targets_tree | reflexivity].
    - right. left. exists nm. split; [now apply own_targets_tree | reflexivity]. }
  rewrite decode_eq. cbn [directFile entries t].
  destruct d as [tg|].
  - apply Hres. unfold own_targets. apply in_or_app. right. now left.
  - destruct (rows_loop_result (values_of t instruction) instruction es)
      as [H|(row & tg & Hin & H)]; [now left|].
    fold t. rewrite H. apply Hres. unfold own_targets. apply in_or_app. left.
    apply in_map_iff. now exists (row, tg).
Qed.


(** The inner loop computes the conjunction of the tests. *)
Lemma row_loop_forallb (values : list (string * string)) (row : rowkey) (m : bool) :
  row_loop values row m =
    Ok (m && forallb (fun tup => match matchVar values tup with
                                 | Ok b => b
                                 | Raise _ => false
                                 end) row).
Proof.
  revert m. induction row as [|tup row IH]; intros m.
  - cbn [Decoder.row_loop forallb]. now rewrite andb_true_r.
  - cbn [Decoder.row_loop forallb].
    destruct (matchVar_total values tup) as [b ->]. cbn [bind].
    rewrite IH. now destruct b, m.
Qed.

Lemma forallb_Permutation {A : Type} (f : A -> bool) (l l' : list A) :
  Permutation l l' -> forallb f l = forallb f l'.
Proof.
  induction 1 as [|x l l' _ IH|x y l|l l' l'' _ IH1 _ IH2]; cbn [forallb].
  - reflexivity.
  - now rewrite IH.
  - now destruct (f x), (f y).
  - now rewrite IH1.
Qed.

(** X2. The order of the constraints within a row is of no account: two
    tables of which the rows have the same values and, row by row, the
    same constraints up to their order, decode every instruction
    alike. *)
Theorem decode_row_order (es es' : list (rowkey * target)) (im : variables_t)
      (d : option target) (instruction : Instruction) :
  Forall2 (fun r r' => Permutation (fst r) (fst r') /\ snd r = snd r') es es' ->
  decode (mkEncodingTable es im d) instruction
  = decode (mkEncodingTable es' im d) instruction.
Proof.
  intros HF. rewrite !decode_eq. cbn [directFile entries].
  destruct d as [tg|]; [reflexivity|].
  unfold Decoder.values_of. cbn [instructionMapping].
  induction HF as [|[row tg] [row' tg'] es es' [Hp Ht] _ IH]; [reflexivity|].
  cbn [fst snd] in Hp, Ht. subst tg'. cbn [Decoder.rows_loop].
  rewrite !row_loop_forallb, (forallb_Permutation _ _ _ Hp), IH. reflexivity.
Qed.

(** *** Further facts on the builder *)

(** Every table of a built tree is itself what the builder returns for
    a fragment. *)
Lemma subtables_built (root hierarchy : Element) (sect : bool) (t : EncodingTable) :
  EncodingTable_init root hierarchy sect = Ok t ->
  forall n, In n (subtables t) ->
    exists h' sect', EncodingTable_init root h' sect' = Ok n.
Proof.
  intros H n Hn.
  assert (Hb : built_by root n).
  { destruct sect; cbn [Decoder.EncodingTable_init] in H.
    - exact (init_sect_built root hierarchy t H n Hn).
    - exact (init_node_built hierarchy root t H n Hn). }
  destruct Hb as (_ & h' & sect' & Hinit & _). now exists h', sect'.
Qed.

Lemma sect_loop_keys (iclass : string) (key : rowkey) (sects : list Element)
      (found f : bool) (E E' : list (rowkey * target)) :
  sect_loop iclass key sects found E = Ok (f, E') ->
  (NoDup (PyDict.keys E) -> NoDup (PyDict.keys E'))
  /\ (In key (PyDict.keys E) -> List.length E' = List.length E)
  /\ ((f = found /\ E' = E)
      \/ (f = true /\ In key (PyDict.keys E')
          /\ List.length E' <= S (List.length E))).
Proof.
  revert found E. induction sects as [|s sects IH]; intros found E H.
  - injection H as <- <-. split; [auto|]. split; [auto | now left].
  - cbn [Decoder.sect_loop] in H. bind_inv H as id Hid.
    destruct (String.eqb id iclass); [|now apply IH].
    bind_inv H as t Ht. apply IH in H. destruct H as (H1 & H2 & H3).
    pose proof (set_length rowkey_eqb key (TTable t) E) as Hlen.
    assert (Hin : In key (PyDict.keys (entries_set key (TTable t) E))).
    { apply (keys_set_in rowkey_eqb rowkey_eqb_eq). now left. }
    specialize (H2 Hin). unfold entries_set in *.
    split; [|split].
    + intros Hnd. apply H1. now apply (keys_set_NoDup rowkey_eqb rowkey_eqb_eq).
    + intros Hp. rewrite H2.
      now apply (set_length_present rowkey_eqb rowkey_eqb_eq).
    + right. split; [now destruct H3 as [(-> & _)|(-> & _)]|].
      split; [|lia].
      destruct H3 as [(_ & ->)|(_ & Hk & _)]; assumption.
Qed.


Lemma sect_loop_entries (iclass : string) (key : rowkey) (sects : list Element)
      (found f : bool) (E E' : list (rowkey * target)) :
  sect_loop iclass key sects found E = Ok (f, E') ->
  forall k tg, In (k, tg) E' ->
    In (k, tg) E \/ (k = key /\ exists t', tg = TTable t').
Proof.
  revert found E. induction sects as [|s sects IH]; intros found E H k tg Hin.
  - injection H as _ <-. now left.
  - cbn [Decoder.sect_loop] in H. bind_inv H as id Hid.
    destruct (String.eqb id iclass); [|now apply (IH _ _ H)].
    bind_inv H as t Ht. destruct (IH _ _ H k tg Hin) as [Hin'|Hr]; [|now right].
    apply (set_in_inv rowkey_eqb rowkey_eqb_eq) in Hin'.
    destruct Hin' as [[= -> ->]|Hin']; [right; split; eauto | now left].
Qed.

(** What the step for one child does to the entries: their keys stay
    distinct, at most one entry is added, and an entry that is new has the
    key of the child and a table or a name as its value. *)
Lemma node_step_entries (build : Element -> res EncodingTable)
      (root node : Element) (E E' : list (rowkey * target)) :
  node_step build root node E = Ok E' ->
  (NoDup (PyDict.keys E) -> NoDup (PyDict.keys E'))
  /\ List.length E'
     <= (if has_attrib "groupname" node || has_attrib "iclass" node
         then 1 else 0) + List.length E
  /\ forall k tg, In (k, tg) E' ->
       In (k, tg) E
       \/ (has_attrib "groupname" node || has_attrib "iclass" node = true
           /\ node_mapping node = Ok k
           /\ forall p, tg <> TPage p).
Proof.
  unfold Decoder.node_step. intros H. bind_inv H as key Hkey.
  destruct (has_attrib "groupname" node); cbn [orb].
  - bind_inv H as t Ht. injection H as <-. unfold entries_set.
    split; [apply (keys_set_NoDup rowkey_eqb rowkey_eqb_eq)|].
    split; [apply (set_length rowkey_eqb)|].
    intros k tg Hin. apply (set_in_inv rowkey_eqb rowkey_eqb_eq) in Hin.
    destruct Hin as [[= -> ->]|Hin]; [right | now left].
    split; [reflexivity|]. split; [exact Hkey | discriminate].
  - destruct (has_attrib "iclass" node).
    + bind_inv H as iclass Hic. bind_inv H as r Hr. destruct r as [f E1].
      cbn [fst snd] in H.
      destruct (sect_loop_keys _ _ _ _ _ _ _ Hr) as (H1 & _ & H3).
      pose proof (sect_loop_entries _ _ _ _ _ _ _ Hr) as H4.
      assert (Hnew : forall k tg, In (k, tg) E1 ->
                In (k, tg) E
                \/ (true = true /\ node_mapping node = Ok k
                    /\ forall p, tg <> TPage p)).
      { intros k tg Hin. destruct (H4 k tg Hin) as [Hin'|(-> & t' & ->)];
          [now left | right].
        split; [reflexivity|]. split; [exact Hkey | discriminate]. }
      destruct f; cbn [negb] in H; injection H as <-.
      * split; [exact H1|]. split; [|exact Hnew].
        destruct H3 as [(Hf & _)|(_ & _ & Hl)]; [discriminate | exact Hl].
      * destruct H3 as [(_ & ->)|(Hf & _)]; [|discriminate]. unfold entries_set.
        split; [apply (keys_set_NoDup rowkey_eqb rowkey_eqb_eq)|].
        split; [apply (set_length rowkey_eqb)|].
        intros k tg Hin. apply (set_in_inv rowkey_eqb rowkey_eqb_eq) in Hin.
        destruct Hin as [[= -> ->]|Hin]; [right | now left].
        split; [reflexivity|]. split; [exact Hkey | discriminate].
    + injection H as <-. split; [auto|]. split; [cbn; lia | auto].
Qed.

Lemma nodes_loop_entries (build : Element -> res EncodingTable)
      (root : Element) (nodes : list Element) (E E' : list (rowkey * target)) :
  nodes_loop build root nodes E = Ok E' ->
  (NoDup (PyDict.keys E) -> NoDup (PyDict.keys E'))
  /\ List.length E'
     <= List.length
          (filter (fun n => has_attrib "groupname" n || has_attrib "iclass" n)
                  nodes)
        + List.length E
  /\ forall k tg, In (k, tg) E' ->
       In (k, tg) E
       \/ exists node,
            In node (filter (fun n => has_attrib "groupname" n
                                      || has_attrib "iclass" n) nodes)
            /\ node_mapping node = Ok k
            /\ forall p, tg <> TPage p.
Proof.
  revert E. induction nodes as [|n nodes IH]; intros E H.
  - injection H as <-. split; [auto|]. split; [cbn; lia | auto].
  - cbn [Decoder.nodes_loop] in H. bind_inv H as E1 HE1.
    destruct (node_step_entries _ _ _ _ _ HE1) as (H1 & H2 & H3).
    destruct (IH _ H) as (G1 & G2 & G3). cbn [filter].
    split; [auto|]. split.
    + destruct (has_attrib "groupname" n || has_attrib "iclass" n);
        cbn [List.length] in *; lia.
    + intros k tg Hin. destruct (G3 k tg Hin) as [Hin'|(node & Hn & Hk & Hp)].
      * destruct (H3 k tg Hin') as [Hin''|(Hs & Hk & Hp)]; [now left|].
        right. exists n. rewrite Hs. split; [now left | auto].
      * right. exists node. split; [|auto].
        destruct (has_attrib "groupname" n || has_attrib "iclass" n);
          [now right | exact Hn].
Qed.

(** The keys of the entries of one table are distinct. *)
Lemma init_keys_NoDup (root hierarchy : Element) (sect : bool) (t : EncodingTable) :
  EncodingTable_init root hierarchy sect = Ok t ->
  NoDup (PyDict.keys (entries t)).
Proof.
  destruct sect; cbn [Decoder.EncodingTable_init]; intros H.
  - apply init_sect_Ok in H.
    destruct H as (vars & _ & [(_ & tr & rest & d & _ & _ & ->)
                             | (_ & es & Hes & ->)]); cbn [entries].
    + constructor.
    + apply sect_rows_update in Hes. destruct Hes as (kts & _ & ->).
      apply (update_keys_NoDup rowkey_eqb rowkey_eqb_eq). constructor.
  - rewrite init_node_eq in H. bind_inv H as vars Hvars. bind_inv H as E HE.
    injection H as <-. cbn [entries].
    apply (nodes_loop_entries _ _ _ _ _ HE). constructor.
Qed.

(** X3. In every table of a built tree, the root and the tables below it,
    the keys of the rows are pairwise different: no row of a built table
    is hidden by an earlier row of the same key. *)
Theorem built_keys_distinct (root hierarchy : Element) (sect : bool)
      (t : EncodingTable) :
  EncodingTable_init root hierarchy sect = Ok t ->
  forall n, In n (subtables t) -> NoDup (PyDict.keys (entries n)).
Proof.
  intros H n Hn.
  destruct (subtables_built root hierarchy sect t H n Hn) as (h' & sect' & Hn').
  exact (init_keys_NoDup root h' sect' n Hn').
Qed.

(** X4. A built table has no more rows than the fragment has to offer:
    the data rows of the table of an [iclass_sect], the children of a
    hierarchy that have a group name or a class. *)
Theorem init_entries_bound (root hierarchy : Element) (sect : bool)
      (t : EncodingTable) :
  EncodingTable_init root hierarchy sect = Ok t ->
  List.length (entries t)
  <= List.length (if sect then data_rows hierarchy else stored_nodes hierarchy).
Proof.
  destruct sect; cbn [Decoder.EncodingTable_init]; intros H.
  - apply init_sect_Ok in H.
    destruct H as (vars & _ & [(_ & tr & rest & d & _ & _ & ->)
                             | (_ & es & Hes & ->)]); cbn [entries].
    + cbn [List.length]. lia.
    + apply sect_rows_update in Hes. destruct Hes as (kts & HF & ->).
      pose proof (update_length rowkey_eqb kts []) as Hl.
      apply Forall2_length in HF. cbn [List.length] in Hl. lia.
  - rewrite init_node_eq in H. bind_inv H as vars Hvars. bind_inv H as E HE.
    injection H as <-. cbn [entries].
    destruct (nodes_loop_entries _ _ _ _ _ HE) as (_ & Hl & _).
    unfold stored_nodes. cbn [List.length] in Hl. lia.
Qed.


(** *** The keys of the rows *)

Lemma skipn_nth_error {A : Type} (l : list A) (i : nat) :
  match nth_error l i with
  | Some x => skipn i l = x :: skipn (S i) l
  | None => skipn i l = []
  end.
Proof.
  revert i. induction l as [|a l IH]; intros [|i]; cbn; try reflexivity.
  apply IH.
Qed.

Lemma row_mapping_from (rest : list (option string)) (tds : list Element)
      (i : nat) (mapping : rowkey) :
  row_mapping rest tds i mapping =
    if Nat.leb (List.length rest) (List.length (skipn i tds))
    then Ok (mapping ++ combine rest (map text (skipn i tds)))
    else Raise IndexError.
Proof.
  revert i mapping. induction rest as [|var rest IH]; intros i mapping.
  - cbn. now rewrite app_nil_r.
  - cbn [row_mapping]. unfold index.
    pose proof (skipn_nth_error tds i) as Hs.
    destruct (nth_error tds i) as [td|]; rewrite Hs; cbn [orRaise bind].
    + rewrite IH. cbn [List.length Nat.leb map combine].
      destruct (Nat.leb (List.length rest) (List.length (skipn (S i) tds)));
        [|reflexivity].
      now rewrite <- app_assoc.
    + reflexivity.
Qed.

(** X5. The key of a row pairs the fields of the header with the texts of
    the first cells of the row, in order; cells beyond the fields of the
    header are left out, and a row with fewer cells than the header has
    fields raises IndexError. *)
Theorem row_key_cells (sect tr : Element) :
  row_key sect tr =
    if Nat.leb (List.length (table_vars sect)) (List.length (findall "td" tr))
    then Ok (combine (table_vars sect) (map text (findall "td" tr)))
    else Raise IndexError.
Proof. unfold row_key. now rewrite row_mapping_from. Qed.

Lemma combine_fst_le {A B : Type} (l : list A) (m : list B) :
  List.length l <= List.length m -> map fst (combine l m) = l.
Proof.
  revert m. induction l as [|a l IH]; intros [|b m] H; cbn in *;
    try reflexivity; try lia.
  rewrite IH; [reflexivity | lia].
Qed.

(** X6. Every entry of the table of an [iclass_sect] comes from a data
    row: its key is the key of a data row and its value the value of that
    row, a page or a name; and the key constrains exactly the fields of
    the second header row, in their order. *)
Theorem init_sect_entries_rows (sect : Element) (t : EncodingTable) :
  init_sect sect = Ok t ->
  forall key tg, In (key, tg) (entries t) ->
    map fst key = table_vars sect
    /\ (forall t', tg <> TTable t')
    /\ exists tr, In tr (data_rows sect)
                  /\ row_key sect tr = Ok key
                  /\ row_target tr = Ok tg.
Proof.
  intros H key tg Hin. apply init_sect_Ok in H.
  destruct H as (vars & _ & [(_ & tr & rest & d & _ & _ & ->)
                           | (_ & es & Hes & ->)]); cbn [entries] in Hin.
  - contradiction.
  - apply sect_rows_update in Hes. destruct Hes as (kts & HF & ->).
    apply (update_in_inv rowkey_eqb rowkey_eqb_eq) in Hin.
    destruct Hin as [Hin|[]].
    assert (Hrow : exists tr, In tr (data_rows sect)
                              /\ row_key sect tr = Ok key
                              /\ row_target tr = Ok tg).
    { clear -HF Hin. unfold row_key.
      induction HF as [|tr kt trs kts [Hk Ht] _ IH]; [contradiction|].
      destruct Hin as [->|Hin].
      - exists tr. cbn [fst snd] in Hk, Ht. split; [now left | auto].
      - destruct (IH Hin) as (tr' & Hin' & H'). exists tr'.
        split; [now right | exact H']. }
    destruct Hrow as (tr & Htr & Hk & Ht).
    split; [|split; [|now exists tr]].
    + unfold row_key in Hk. rewrite row_mapping_from in Hk. cbn [skipn app] in Hk.
      destruct (Nat.leb (List.length (table_vars sect))
                        (List.length (findall "td" tr))) eqn:E; [|discriminate].
      injection Hk as <-. apply combine_fst_le.
      apply Nat.leb_le in E. now rewrite length_map.
    + exact (proj2 (proj2 (row_target_Ok tr tg Ht))).
Qed.

Lemma decode_boxes_names (boxes : list Element) (mapping key : rowkey) :
  decode_boxes boxes mapping = Ok key ->
  Forall (fun c => fst c <> None) mapping ->
  Forall (fun c => fst c <> None) key.
Proof.
  revert mapping. induction boxes as [|box boxes IH]; intros mapping H Hm.
  - now injection H as <-.
  - cbn [decode_boxes] in H. bind_inv H as name Hname. bind_inv H as c Hc.
    apply (IH _ H). apply Forall_app. split; [exact Hm|].
    constructor; [discriminate | constructor].
Qed.

(** X7. Every entry of the table of a hierarchy comes from a child with a
    group name or a class: its key is the key of such a child, every
    constraint of the key names a variable, and its value is a table or a
    name, never a page. *)
Theorem init_node_entries_children (root hierarchy : Element) (t : EncodingTable) :
  init_node root hierarchy = Ok t ->
  forall key tg, In (key, tg) (entries t) ->
    Forall (fun c => fst c <> None) key
    /\ (forall p, tg <> TPage p)
    /\ exists node, In node (stored_nodes hierarchy)
                    /\ node_mapping node = Ok key.
Proof.
  intros H key tg Hin. rewrite init_node_eq in H.
  bind_inv H as vars Hvars. bind_inv H as E HE. injection H as <-.
  cbn [entries] in Hin.
  destruct (nodes_loop_entries _ _ _ _ _ HE) as (_ & _ & H3).
  destruct (H3 key tg Hin) as [[]|(node & Hn & Hk & Hp)].
  split; [|split; [exact Hp | now exists node]].
  unfold node_mapping in Hk. bind_inv Hk as d Hd.
  apply (decode_boxes_names _ _ _ Hk). constructor.
Qed.

(** The [directFile] that the builder sets is a page or a name. *)
Lemma subtables_direct_flat (root hierarchy : Element) (sect : bool)
      (t : EncodingTable) :
  EncodingTable_init root hierarchy sect = Ok t ->
  forall n, In n (subtables t) ->
  forall t', directFile n <> Some (TTable t').
Proof.
  intros H n Hn t'.
  destruct (subtables_built root hierarchy sect t H n Hn) as (h' & [|] & Hn');
    cbn [Decoder.EncodingTable_init] in Hn'.
  - apply init_sect_Ok in Hn'.
    destruct Hn' as (vars & _ & [(_ & tr & rest & d & _ & Hd & ->)
                               | (_ & es & _ & ->)]); cbn [directFile].
    + intros [= ->]. exact (proj2 (proj2 (row_target_Ok tr _ Hd)) t' eq_refl).
    + discriminate.
  - rewrite init_node_eq in Hn'. bind_inv Hn' as vars Hvars.
    bind_inv Hn' as E HE. injection Hn' as <-. discriminate.
Qed.

(** X8. No table of a built tree has a table as its [directFile]: the
    branch of [decode] for such a [directFile] is never taken on a tree
    that the builder made, and a table with a [directFile] decodes every
    instruction to its name or through its page. *)
Theorem built_direct_not_table (root hierarchy : Element) (sect : bool)
      (t : EncodingTable) :
  EncodingTable_init root hierarchy sect = Ok t ->
  forall n, In n (subtables t) ->
    (forall t', directFile n <> Some (TTable t'))
    /\ (forall s instruction,
          directFile n = Some (TName s) -> decode n instruction = Ok (VStr s))
    /\ (forall p instruction,
          directFile n = Some (TPage p) ->
          decode n instruction = disassemble p instruction).
Proof.
  intros H n Hn. split; [exact (subtables_direct_flat root hierarchy sect t H n Hn)|].
  split; intros x instruction Hd; now rewrite decode_eq, Hd.
Qed.


(** *** print *)

Lemma print_eq (t : EncodingTable) :
  print t =
    PInt (List.length (entries t))
    :: map (fun e => PValue (snd e)) (entries t)
    ++ flat_map (fun e => match snd e with
                          | TTable t' => PStr EmptyString :: print t'
                          | _ => []
                          end) (entries t).
Proof.
  destruct t as [es im d]. cbn [print entries]. f_equal. f_equal.
  induction es as [|[k [t'|pg|nm]] es IH]; cbn [flat_map snd app];
    [reflexivity | now rewrite IH | exact IH | exact IH].
Qed.

Lemma printed_counts_app (l m : list printed) :
  printed_counts (l ++ m) = printed_counts l ++ printed_counts m.
Proof.
  induction l as [|[n|tg|s] l IH]; cbn [app printed_counts];
    [reflexivity | now rewrite IH | exact IH | exact IH].
Qed.

Lemma printed_counts_values (es : list (rowkey * target)) :
  printed_counts (map (fun e => PValue (snd e)) es) = [].
Proof. induction es as [|e es IH]; [reflexivity | exact IH]. Qed.

(** The numbers printed for a tree without a table as [directFile]. *)
Lemma print_counts_tree (t : EncodingTable) :
  (forall n, In n (subtables t) -> forall t', directFile n <> Some (TTable t')) ->
  printed_counts (print t)
  = map (fun n => List.length (entries n)) (subtables t).
Proof.
  induction t as [es im d IHes _] using EncodingTable_tree_ind. intros Hd.
  set (t := mkEncodingTable es im d) in *.
  rewrite print_eq, (subtables_eq t). cbn [entries directFile t printed_counts map].
  f_equal. rewrite printed_counts_app, printed_counts_values. cbn [app].
  assert (Hnd : match d with Some (TTable t') => subtables t' | _ => [] end = []).
  { pose proof (Hd t (subtables_self t)) as H. cbn [directFile t] in H.
    destruct d as [[t'|pg|nm]|]; try reflexivity. now elim (H t'). }
  rewrite Hnd, app_nil_r.
  assert (Hsub : forall k t', In (k, TTable t') es ->
            printed_counts (print t')
            = map (fun n => List.length (entries n)) (subtables t')).
  { intros k t' Hin. apply (IHes k t' Hin). intros n Hn.
    apply Hd. now apply (subtables_entry t t' k). }
  clear -Hsub. unfold tables_below.
  induction es as [|[k [t'|pg|nm]] es IH]; cbn [flat_map snd app printed_counts map].
  - reflexivity.
  - rewrite printed_counts_app, map_app, (Hsub k t' (or_introl eq_refl)), IH;
      [reflexivity|].
    intros k0 t0 Hin. apply (Hsub k0). now right.
  - apply IH. intros k0 t0 Hin. apply (Hsub k0). now right.
  - apply IH. intros k0 t0 Hin. apply (Hsub k0). now right.
Qed.

(** X9. For a built tree, the numbers that [print] prints are the numbers
    of entries of the tables of the tree, one for each table, the root
    first and then, for each entry that is a table in the order of the
    entries, that table and the tables below it. *)
Theorem print_counts_built (root hierarchy : Element) (sect : bool)
      (t : EncodingTable) :
  EncodingTable_init root hierarchy sect = Ok t ->
  printed_counts (print t)
  = map (fun n => List.length (entries n)) (subtables t).
Proof.
  intros H. apply print_counts_tree.
  exact (subtables_direct_flat root hierarchy sect t H).
Qed.

(** *** Spaces in a negated pattern *)

Lemma remove_spaces_idem (s : string) :
  remove_spaces (remove_spaces s) = remove_spaces s.
Proof.
  induction s as [|c r IH]; [reflexivity|].
  cbn [remove_spaces]. destruct (Ascii.eqb c " ") eqn:E; [exact IH|].
  cbn [remove_spaces]. now rewrite E, IH.
Qed.

Lemma matchVar_ext (vars : list (string * string)) (name p1 p2 : option string) :
  (forall v, matchValue p1 v = matchValue p2 v) ->
  matchVar vars (name, p1) = matchVar vars (name, p2).
Proof.
  intros H. induction vars as [|var vars IH]; [reflexivity|].
  rewrite !matchVar_cons. cbn [fst snd]. now rewrite IH, H.
Qed.

(** X10. In a pattern with [!=] the spaces are of no account: the
    constraint with the pattern and the constraint with the pattern
    without its spaces give the same result on all values. *)
Theorem matchVar_negated_spaces (vars : list (string * string))
      (name : option string) (p : string) :
  contains_neq p = true ->
  matchVar vars (name, Some p) = matchVar vars (name, Some (remove_spaces p)).
Proof.
  intros Hc. apply matchVar_ext. intros v. unfold Decoder.matchValue.
  now rewrite Hc, (contains_neq_remove_spaces p Hc), remove_spaces_idem.
Qed.

(** *** The last section of an identifier *)

(** X11. For a child that names a class, when the sections of the document
    up to the last one with that identifier are gone through without an
    error and that last one builds, the step of the builder enters the
    table of that last section under the key of the child, whatever
    sections of the identifier come before it. *)
Theorem node_step_last_section (build : Element -> res EncodingTable)
      (root node : Element) (E E1 : list (rowkey * target)) (key : rowkey)
      (iclass : string) (l1 l2 : list Element) (s : Element) (f1 : bool)
      (t : EncodingTable) :
  node_mapping node = Ok key ->
  has_attrib "groupname" node = false ->
  PyDict.get String.eqb "iclass" (attrib node) = Some iclass ->
  findall_below "iclass_sect" root = l1 ++ s :: l2 ->
  sect_loop iclass key l1 false E = Ok (f1, E1) ->
  PyDict.get String.eqb "id" (attrib s) = Some iclass ->
  init_sect s = Ok t ->
  (forall s', In s' l2 ->
     exists id, PyDict.get String.eqb "id" (attrib s') = Some id /\ id <> iclass) ->
  node_step build root node E = Ok (entries_set key (TTable t) E1)
  /\ entries_get key (entries_set key (TTable t) E1) = Some (TTable t).
Proof.
  intros Hkey Hg Hic Hsects Hl1 Hid Ht Hl2.
  destruct (sect_loop_last iclass key l1 l2 s t false f1 E E1 Hl1 Hid Ht Hl2)
    as (Hloop & Hget).
  split; [|exact Hget].
  unfold Decoder.node_step. rewrite Hkey, Hg. cbn [bind].
  unfold has_attrib, PyDict.mem, get_attrib. rewrite Hic. cbn [orRaise bind].
  rewrite Hsects, Hloop. reflexivity.
Qed.


(** *** A build that succeeds *)

Lemma sect_loop_Ok (iclass : string) (key : rowkey) (sects : list Element)
      (found : bool) (E : list (rowkey * target))
      (r : bool * list (rowkey * target)) :
  sect_loop iclass key sects found E = Ok r ->
  forall s, In s sects ->
    exists id, PyDict.get String.eqb "id" (attrib s) = Some id
               /\ (id = iclass -> exists ts, init_sect s = Ok ts).
Proof.
  revert found E. induction sects as [|s0 sects IH]; intros found E H s Hin.
  - contradiction.
  - cbn [Decoder.sect_loop] in H. bind_inv H as id Hid.
    unfold get_attrib in Hid.
    destruct (PyDict.get String.eqb "id" (attrib s0)) as [id0|] eqn:Eid;
      [|discriminate].
    injection Hid as ->.
    destruct (String.eqb id iclass) eqn:Eq.
    + bind_inv H as t Ht. destruct Hin as [<-|Hin]; [|now apply (IH _ _ H)].
      exists id. split; [exact Eid | now exists t].
    + destruct Hin as [<-|Hin]; [|now apply (IH _ _ H)].
      exists id. split; [exact Eid|].
      intros ->. rewrite String.eqb_refl in Eq. discriminate.
Qed.

Lemma nodes_loop_steps (build : Element -> res EncodingTable) (root : Element)
      (nodes : list Element) (E E' : list (rowkey * target)) :
  nodes_loop build root nodes E = Ok E' ->
  forall node, In node nodes ->
    exists E1 E2, node_step build root node E1 = Ok E2.
Proof.
  revert E. induction nodes as [|n nodes IH]; intros E H node Hin.
  - contradiction.
  - cbn [Decoder.nodes_loop] in H. bind_inv H as E1 HE1.
    destruct Hin as [<-|Hin]; [now exists E, E1 | now apply (IH _ H)].
Qed.

(** X12. The build of a hierarchy is all or nothing: when it returns a
    table, the key of every child was read, every child with a group name
    was built itself, and for every child that names a class (and has no
    group name) every [iclass_sect] of the document has an identifier and
    every one with the identifier of the class was built. *)
Theorem init_node_children_built (root hierarchy : Element) (t : EncodingTable) :
  init_node root hierarchy = Ok t ->
  forall node, In node (findall "node" hierarchy) ->
    (exists key, node_mapping node = Ok key)
    /\ (has_attrib "groupname" node = true ->
        exists t', init_node root node = Ok t')
    /\ (has_attrib "groupname" node = false ->
        forall iclass,
          PyDict.get String.eqb "iclass" (attrib node) = Some iclass ->
          forall s, In s (findall_below "iclass_sect" root) ->
            exists id, PyDict.get String.eqb "id" (attrib s) = Some id
                       /\ (id = iclass -> exists ts, init_sect s = Ok ts)).
Proof.
  intros H node Hin. rewrite init_node_eq in H.
  bind_inv H as vars Hvars. bind_inv H as E HE. clear H.
  destruct (nodes_loop_steps _ _ _ _ _ HE node Hin) as (E1 & E2 & Hstep).
  unfold Decoder.node_step in Hstep. bind_inv Hstep as key Hkey.
  split; [now exists key|].
  destruct (has_attrib "groupname" node).
  - split; [intros _ | discriminate].
    bind_inv Hstep as t' Ht'. now exists t'.
  - split; [discriminate | intros _ iclass Hic s Hs].
    unfold has_attrib, PyDict.mem, get_attrib in Hstep. rewrite Hic in Hstep.
    cbn [orRaise bind] in Hstep. bind_inv Hstep as r Hr.
    exact (sect_loop_Ok _ _ _ _ _ _ Hr s Hs).
Qed.

(** *** The variables of a table *)

Lemma has_attrib_get (k : string) (e : Element) :
  has_attrib k e = true <-> PyDict.get String.eqb k (attrib e) <> None.
Proof.
  unfold has_attrib, PyDict.mem.
  destruct (PyDict.get String.eqb k (attrib e)); split; intros H;
    try reflexivity; try discriminate. now elim H.
Qed.

(** The loop over the boxes assigns, for the boxes with a name in their
    order, the position and the width to the name. *)
Lemma read_boxes_update (boxes : list Element) (vars0 vars : variables_t) :
  Decoder.read_boxes int boxes vars0 = Ok vars ->
  exists kvs,
    Forall2 (fun box kv =>
               PyDict.get String.eqb "name" (attrib box) = Some (fst kv)
               /\ exists hb,
                    PyDict.get String.eqb "hibit" (attrib box) = Some hb
                    /\ int hb = Some (fst (snd kv))
                    /\ match PyDict.get String.eqb "width" (attrib box) with
                       | Some ws => int ws = Some (snd (snd kv))
                       | None => snd (snd kv) = 1%Z
                       end)
            (filter (has_attrib "name") boxes) kvs
    /\ vars = PyDict.update String.eqb kvs vars0.
Proof.
  revert vars0. induction boxes as [|box boxes IH]; intros vars0 H.
  - injection H as <-. exists []. split; [constructor | reflexivity].
  - cbn [Decoder.read_boxes filter] in H |- *.
    destruct (has_attrib "name" box) eqn:Hn; [|now apply IH].
    bind_inv H as varWidth Hw. bind_inv H as hb Hhb. bind_inv H as h Hh.
    bind_inv H as w Hww. bind_inv H as name Hname.
    destruct (IH _ H) as (kvs & HF & ->).
    exists ((name, (h, w)) :: kvs). split; [|reflexivity].
    constructor; [|exact HF]. cbn [fst snd].
    unfold get_attrib in Hhb, Hname, Hw. unfold Decoder.to_int in Hh, Hww.
    destruct (PyDict.get String.eqb "name" (attrib box)) as [nm|]; [|discriminate].
    injection Hname as ->. split; [reflexivity|].
    destruct (PyDict.get String.eqb "hibit" (attrib box)) as [hb0|]; [|discriminate].
    injection Hhb as ->. exists hb. split; [reflexivity|].
    destruct (int hb) as [h0|]; [|discriminate]. injection Hh as ->.
    split; [reflexivity|].
    unfold has_attrib, PyDict.mem in Hw.
    destruct (PyDict.get String.eqb "width" (attrib box)) as [ws|].
    + cbn [orRaise bind] in Hw. injection Hw as <-.
      destruct (int ws) as [w0|]; [|discriminate]. now injection Hww as ->.
    + injection Hw as <-. now injection Hww as ->.
Qed.

Lemma named_boxes_keys (Q : Element -> string * (Z * Z) -> Prop)
      (bs : list Element) (kvs : list (string * (Z * Z))) :
  Forall2 (fun box kv =>
             PyDict.get String.eqb "name" (attrib box) = Some (fst kv)
             /\ Q box kv) bs kvs ->
  forall name,
    In name (map fst kvs)
    <-> exists box, In box bs
                    /\ PyDict.get String.eqb "name" (attrib box) = Some name.
Proof.
  induction 1 as [|box kv bs kvs [Hn _] _ IH]; intros name; cbn [map In].
  - split; [intros [] | intros (b & [] & _)].
  - rewrite IH. split.
    + intros [<-|(b & Hb & Hbn)]; [exists box | exists b]; auto.
    + intros (b & [<-|Hb] & Hbn).
      * left. rewrite Hn in Hbn. now injection Hbn.
      * right. now exists b.
Qed.

(** X13. When the variables of a fragment are read, their names are
    pairwise different and are the names of the boxes of the [regdiagram]
    that have a name; a name has the position and the width of the last
    box of that name, the position being the number of its [hibit] and the
    width the number of its [width], or 1 for a box without [width]. *)
Theorem read_variables_names (hierarchy regdiagram : Element) (vars : variables_t) :
  find "regdiagram" hierarchy = Some regdiagram ->
  read_variables hierarchy = Ok vars ->
  NoDup (PyDict.keys vars)
  /\ (forall name,
        In name (PyDict.keys vars)
        <-> exists box, In box (findall "box" regdiagram)
                        /\ PyDict.get String.eqb "name" (attrib box) = Some name)
  /\ (forall l1 box l2 name,
        findall "box" regdiagram = l1 ++ box :: l2 ->
        PyDict.get String.eqb "name" (attrib box) = Some name ->
        (forall b, In b l2 ->
           PyDict.get String.eqb "name" (attrib b) <> Some name) ->
        exists hb h w,
          PyDict.get String.eqb "hibit" (attrib box) = Some hb
          /\ int hb = Some h
          /\ match PyDict.get String.eqb "width" (attrib box) with
             | Some ws => int ws = Some w
             | None => w = 1%Z
             end
          /\ PyDict.get String.eqb name vars = Some (h, w)).
Proof.
  intros Hrd H. unfold Decoder.read_variables in H. rewrite Hrd in H.
  cbn [notNone orRaise bind] in H.
  apply read_boxes_update in H. destruct H as (kvs & HF & ->).
  split; [|split].
  - apply (update_keys_NoDup String.eqb String.eqb_eq). constructor.
  - intros name. rewrite (update_keys_in String.eqb String.eqb_eq).
    rewrite (named_boxes_keys _ _ _ HF name). cbn [PyDict.keys map In].
    split.
    + intros [[]|(box & Hb & Hn)]. apply filter_In in Hb.
      exists box. split; [exact (proj1 Hb) | exact Hn].
    + intros (box & Hb & Hn). right. exists box. split; [|exact Hn].
      apply filter_In. split; [exact Hb|]. apply has_attrib_get. now rewrite Hn.
  - intros l1 box l2 name Hboxes Hn Hlast.
    rewrite Hboxes, filter_app in HF. cbn [filter] in HF.
    assert (Hnb : has_attrib "name" box = true)
      by (apply has_attrib_get; now rewrite Hn).
    rewrite Hnb in HF. apply Forall2_app_inv_l in HF.
    destruct HF as (k1 & k2' & _ & HF2 & ->).
    inversion HF2 as [|? [nm [h w]] ? k2 [Hn' (hb & Hhb & Hh & Hw)] HF3]; subst.
    cbn [fst snd] in *. rewrite Hn in Hn'. injection Hn' as <-.
    exists hb, h, w. split; [exact Hhb|]. split; [exact Hh|]. split; [exact Hw|].
    apply (update_get_last String.eqb String.eqb_eq).
    rewrite (named_boxes_keys _ _ _ HF3 name).
    intros (b & Hb & Hbn). apply filter_In in Hb.
    exact (Hlast b (proj1 Hb) Hbn).
Qed.


(** *** The errors of the header of a table *)

(** X14. With the variables read, the table of an [iclass_sect] raises
    AttributeError without an [instructiontable] or without a [thead] in
    it, IndexError for a [thead] without a row, and AttributeError when
    the [thead] has a row and the [tbody] is missing or, for a single
    header row, has no row. *)
Theorem init_sect_header_errors (sect : Element) (vars : variables_t) :
  read_variables sect = Ok vars ->
  (find "instructiontable" sect = None -> init_sect sect = Raise AttributeError)
  /\ forall it,
       find "instructiontable" sect = Some it ->
       (find "thead" it = None -> init_sect sect = Raise AttributeError)
       /\ forall thead,
            find "thead" it = Some thead ->
            (findall "tr" thead = [] -> init_sect sect = Raise IndexError)
            /\ (findall "tr" thead <> [] -> find "tbody" it = None ->
                init_sect sect = Raise AttributeError)
            /\ (List.length (findall "tr" thead) = 1 -> data_rows sect = [] ->
                init_sect sect = Raise AttributeError).
Proof.
  intros Hv. unfold Decoder.init_sect. rewrite Hv. cbn [bind].
  split; [intros ->; reflexivity|].
  intros it Hit. rewrite Hit. cbn [notNone orRaise bind].
  split; [intros ->; reflexivity|].
  intros thead Hth. rewrite Hth. cbn [notNone orRaise bind].
  split; [|split].
  - intros ->. reflexivity.
  - intros Hne ->. cbn [notNone orRaise bind].
    destruct (findall "tr" thead) as [|h0 [|h1 hs]]; [now elim Hne | | ]; reflexivity.
  - intros H1 Hd. rewrite H1. cbn [Nat.eqb].
    unfold data_rows in Hd. rewrite Hit in Hd.
    destruct (find "tbody" it) as [tbody|]; [|reflexivity].
    cbn [notNone orRaise bind]. rewrite find_hd, Hd. reflexivity.
Qed.

(** *** The document and the sections *)

Lemma nodes_loop_ext (build build' : Element -> res EncodingTable)
      (root root' : Element) (nodes : list Element) (E : list (rowkey * target)) :
  findall_below "iclass_sect" root = findall_below "iclass_sect" root' ->
  (forall n, In n nodes -> build n = build' n) ->
  nodes_loop build root nodes E = nodes_loop build' root' nodes E.
Proof.
  intros Hs. revert E. induction nodes as [|n nodes IH]; intros E Hb; [reflexivity|].
  cbn [Decoder.nodes_loop].
  assert (Hstep : node_step build root n E = node_step build' root' n E).
  { unfold Decoder.node_step. now rewrite Hs, (Hb n (or_introl eq_refl)). }
  rewrite Hstep. destruct (node_step build' root' n E) as [E1|e]; [|reflexivity].
  cbn [bind]. apply IH. intros n' Hin. apply Hb. now right.
Qed.

(** X15. The builder uses the document only for its [iclass_sect]
    elements: in two documents with the same list of sections a hierarchy
    builds to the same table, or fails alike. *)
Theorem init_node_sections_only (hierarchy root root' : Element) :
  findall_below "iclass_sect" root = findall_below "iclass_sect" root' ->
  init_node root hierarchy = init_node root' hierarchy.
Proof.
  intros Hs.
  induction hierarchy as [tg a tx cs IHcs] using Element_children_ind.
  rewrite !init_node_eq.
  rewrite (nodes_loop_ext (init_node root) (init_node root') root root' _ [] Hs);
    [reflexivity|].
  intros n Hin. rewrite Forall_forall in IHcs. apply IHcs.
  unfold findall in Hin. apply filter_In in Hin. exact (proj1 Hin).
Qed.

(** *** The pieces of a split *)

Lemma split_neq_cons (c d : ascii) (r' : string) :
  split_neq (String c (String d r')) =
    if Ascii.eqb c "!" && Ascii.eqb d "="
    then let (p, ps) := split_neq r' in (EmptyString, p :: ps)
    else let (p, ps) := split_neq (String d r') in (String c p, ps).
Proof. reflexivity. Qed.

Lemma contains_neq_cons2 (c d : ascii) (r' : string) :
  contains_neq (String c (String d r'))
  = (Ascii.eqb c "!" && Ascii.eqb d "=") || contains_neq (String d r').
Proof. reflexivity. Qed.

Lemma split_neq_pieces (n : nat) (s : string) :
  String.length s <= n ->
  join_neq (fst (split_neq s)) (snd (split_neq s)) = s
  /\ contains_neq (fst (split_neq s)) = false
  /\ Forall (fun q => contains_neq q = false) (snd (split_neq s))
  /\ (fst (split_neq s) = EmptyString
      \/ exists c p r, s = String c r /\ fst (split_neq s) = String c p).
Proof.
  revert s. induction n as [|n IH]; intros s Hlen.
  - destruct s; [|cbn in Hlen; lia]. cbn. auto.
  - destruct s as [|c [|d r']].
    + cbn. auto.
    + cbn. split; [reflexivity|]. split; [reflexivity|]. split; [constructor|].
      right. now exists c, EmptyString, EmptyString.
    + rewrite split_neq_cons.
      destruct (Ascii.eqb c "!" && Ascii.eqb d "=") eqn:E.
      * apply andb_true_iff in E. destruct E as [Ec Ed].
        apply Ascii.eqb_eq in Ec, Ed. subst c d.
        destruct (IH r') as (Hj & Hc & Hf & _); [cbn in Hlen; lia|].
        destruct (split_neq r') as [p ps]. cbn [fst snd] in *.
        split; [cbn [join_neq String.append]; now rewrite Hj|].
        split; [reflexivity|]. split; [now constructor | now left].
      * destruct (IH (String d r')) as (Hj & Hc & Hf & Hh); [cbn in Hlen |- *; lia|].
        destruct (split_neq (String d r')) as [p ps]. cbn [fst snd] in *.
        split; [|split; [|split; [exact Hf|]]].
        -- clear -Hj. destruct ps as [|q ps]; cbn [join_neq] in *.
           ++ now rewrite Hj.
           ++ cbn [String.append] in *. now rewrite Hj.
        -- destruct Hh as [->|(c0 & p0 & r0 & Hs & ->)]; [reflexivity|].
           injection Hs as <- <-. rewrite contains_neq_cons2, E. exact Hc.
        -- right. now exists c, p, (String d r').
Qed.

(** X16. The pieces into which a pattern is split at [!=] hold no [!=]
    themselves, and joined again with [!=] between them they are the
    string that was split. *)
Theorem split_list_join (s : string) :
  exists p ps,
    split_list s = p :: ps
    /\ join_neq p ps = s
    /\ Forall (fun q => contains_neq q = false) (p :: ps).
Proof.
  destruct (split_neq_pieces (String.length s) s (le_n _)) as (Hj & Hc & Hf & _).
  unfold split_list. destruct (split_neq s) as [p ps]. cbn [fst snd] in *.
  exists p, ps. split; [reflexivity|]. split; [exact Hj | now constructor].
Qed.


(** *** The builder and [decode] together *)

(** X17. When the keys of the data rows of a table that is entered row by
    row are pairwise different, the entries are the rows: as many, in the
    order of the document, each with the key and the value of its row. *)
Theorem init_sect_distinct_rows (sect : Element) (t : EncodingTable) :
  init_sect sect = Ok t ->
  List.length (header_rows sect) <> 1 ->
  NoDup (map (row_key sect) (data_rows sect)) ->
  Forall2 (fun tr e => row_key sect tr = Ok (fst e) /\ row_target tr = Ok (snd e))
          (data_rows sect) (entries t).
Proof.
  intros H Hn Hnd. apply init_sect_Ok in H.
  destruct H as (vars & _ & [(H1 & _) | (_ & es & Hes & ->)]); [contradiction|].
  cbn [entries]. exact (sect_rows_distinct _ _ _ Hes Hnd).
Qed.

(** X18. For such a table, [decode] resolves the value of the first data
    row, in the order of the document, whose key the extracted values
    satisfy: the name of the row, or the disassembly by the page of its
    file. *)
Theorem init_sect_decode_first_row (sect : Element) (t : EncodingTable)
      (instruction : Instruction) (l1 l2 : list Element) (tr : Element)
      (key : rowkey) (tg : target) :
  init_sect sect = Ok t ->
  List.length (header_rows sect) <> 1 ->
  NoDup (map (row_key sect) (data_rows sect)) ->
  data_rows sect = l1 ++ tr :: l2 ->
  row_key sect tr = Ok key ->
  row_target tr = Ok tg ->
  (forall tr' key', In tr' l1 -> row_key sect tr' = Ok key' ->
     ~ (forall tup, In tup key' ->
          matchVar (values_of t instruction) tup = Ok true)) ->
  (forall tup, In tup key -> matchVar (values_of t instruction) tup = Ok true) ->
  decode t instruction = resolve tg instruction.
Proof.
  intros H Hn Hnd Hrows Hkey Htg Hpre Hrow.
  assert (HF : Forall2 (fun tr e => row_key sect tr = Ok (fst e)
                                    /\ row_target tr = Ok (snd e))
                       (data_rows sect) (entries t)
               /\ directFile t = None).
  { apply init_sect_Ok in H.
    destruct H as (vars & _ & [(H1 & _) | (_ & es & Hes & ->)]); [contradiction|].
    split; [exact (sect_rows_distinct _ _ _ Hes Hnd) | reflexivity]. }
  destruct HF as (HF & Hd).
  rewrite Hrows in HF. apply Forall2_app_inv_l in HF.
  destruct HF as (e1 & e2' & HF1 & HF2 & He).
  inversion HF2 as [|? [key0 tg0] ? e2 [Hk Ht] _]; subst e2'.
  cbn [fst snd] in Hk, Ht. rewrite Hkey in Hk. injection Hk as <-.
  rewrite Htg in Ht. injection Ht as <-.
  rewrite decode_eq, Hd, He, rows_loop_skip.
  - cbn [Decoder.rows_loop]. now rewrite (row_loop_true _ _ true Hrow).
  - intros r Hin. apply row_not_satisfied.
    clear -HF1 Hin Hpre. induction HF1 as [|tr' e l1 e1 [Hk _] _ IH]; [contradiction|].
    destruct Hin as [<-|Hin].
    + apply (Hpre tr' (fst e)); [now left | exact Hk].
    + apply IH; [|exact Hin]. intros tr0 key0 Hin0. apply Hpre. now right.
Qed.

(** X19. [decode] does not go back: when the first row that the
    extracted values satisfy leads to a table in which [decode] finds
    nothing, the result is None, whatever the rows after it are. *)
Theorem decode_no_way_back (t t' : EncodingTable) (instruction : Instruction)
      (pre post : list (rowkey * target)) (row : rowkey) :
  directFile t = None ->
  entries t = pre ++ (row, TTable t') :: post ->
  (forall r, In r pre ->
     ~ (forall tup, In tup (fst r) ->
          matchVar (values_of t instruction) tup = Ok true)) ->
  (forall tup, In tup row -> matchVar (values_of t instruction) tup = Ok true) ->
  decode t' instruction = Ok VNone ->
  decode t instruction = Ok VNone.
Proof.
  intros Hd He Hpre Hrow Hsub.
  rewrite decode_eq, Hd, He, rows_loop_skip.
  - cbn [Decoder.rows_loop]. rewrite (row_loop_true _ _ true Hrow).
    cbn [bind Decoder.resolve]. exact Hsub.
  - intros r Hin. apply row_not_satisfied. now apply Hpre.
Qed.

End Facts.

(** * The examples *)

(** ** The builder and [decode] on the documents *)

Example init_node_doc_ab :
  init_node_ex doc_ab (hierarchy_of [node_ref "cls"]) = Ok tree_ab.
Proof. reflexivity. Qed.

(** The two-level document: [opc = 10], [subop = 01] is [formB], and
    [opc = 01] matches no row of the root. *)
Example decode_doc_ab_formB : decode_ex tree_ab word_10_01 = Ok (VStr "formB").
Proof. reflexivity. Qed.

Example decode_doc_ab_none : decode_ex tree_ab word_01_01 = Ok VNone.
Proof. reflexivity. Qed.

Example init_sect_repeat : init_sect_ex sect_repeat = Ok table_repeat.
Proof. reflexivity. Qed.

(** ** Negated patterns *)

Example matchVar_neq_10 :
  matchVar_ex [("f", "10")] (Some "f", Some "!=1x") = Ok false.
Proof. reflexivity. Qed.

Example matchVar_neq_00 :
  matchVar_ex [("f", "00")] (Some "f", Some "!=1x") = Ok true.
Proof. reflexivity. Qed.

Example matchVar_neq_0110 :
  matchVar_ex [("f", "0110")] (Some "f", Some "01 != 1x") = Ok false.
Proof. reflexivity. Qed.

Example matchVar_neq_0100 :
  matchVar_ex [("f", "0100")] (Some "f", Some "01 != 1x") = Ok true.
Proof. reflexivity. Qed.

(** ** The theorems at the examples *)

(** The second row of [table_overlap] is the first that [subop = 01]
    satisfies; the third, which it satisfies as well, is not taken. *)
Lemma decode_first_match_witness :
  decode_ex table_overlap word_10_01 = Ok (VStr "R1").
Proof.
  refine (proj1 (decode_first_match string string compareWithXs_model
                   assignValues_bits disassemble_path table_overlap word_10_01
                   [(key_subop "1x", TName "R0")]
                   [([(Some "subop", None)], TName "R2")]
                   (key_subop "x1") (TName "R1") _ _ _ _)).
  - reflexivity.
  - reflexivity.
  - intros r [<-|[]] H.
    specialize (H (Some "subop", Some "1x") (or_introl eq_refl)).
    vm_compute in H. discriminate H.
  - intros tup [<-|[]]. reflexivity.
Defined.


Lemma matchVar_None_witness :
  matchVar_ex [("g", "1"); ("f", "10")] (Some "f", None) = Ok true.
Proof.
  apply (matchVar_None compareWithXs_model [("g", "1"); ("f", "10")] "f").
  simpl. right. left. reflexivity.
Defined.

Lemma matchVar_missing_witness :
  matchVar_ex [("g", "1"); ("f", "10")] (Some "h", None) = Ok false.
Proof.
  apply (matchVar_missing compareWithXs_model [("g", "1"); ("f", "10")]
           (Some "h") None).
  intros f E. injection E as <-.
  intros [H|[H|[]]]; discriminate H.
Defined.

(** [subop = 10] satisfies neither row of [table_ab]. *)
Lemma decode_no_match_witness : decode_ex table_ab word_00_10 = Ok VNone.
Proof.
  apply (decode_no_match string string compareWithXs_model assignValues_bits
           disassemble_path table_ab word_00_10).
  - reflexivity.
  - intros r [<-|[<-|[]]] H.
    + specialize (H (Some "subop", Some "00") (or_introl eq_refl)).
      vm_compute in H. discriminate H.
    + specialize (H (Some "subop", Some "x1") (or_introl eq_refl)).
      vm_compute in H. discriminate H.
Defined.

(** C3, against the claim.  The table [sect_single_row] has exactly one
    data row, and the builder sets no [directFile] for it and makes an
    entry of the row; the table [sect_single_header] has two data rows, and
    the builder sets [directFile] for it and makes no entry. *)
Lemma init_sect_data_rows_counterexample :
  (List.length (data_rows sect_single_row) = 1
   /\ init_sect_ex sect_single_row = Ok table_single_row
   /\ directFile table_single_row = None
   /\ entries table_single_row = [(key_subop "00", TName "formA")])
  /\ (List.length (data_rows sect_single_header) = 2
      /\ init_sect_ex sect_single_header = Ok table_single_header
      /\ directFile table_single_header = Some (TName "formA")
      /\ entries table_single_header = []).
Proof. repeat split. Qed.

(** The table with one header row decodes every instruction to the name
    of its first row. *)
Lemma init_sect_header_rows_witness :
  decode_ex table_single_header word_10_01 = Ok (VStr "formA").
Proof.
  destruct (init_sect_header_rows string string compareWithXs_model
              assignValues_bits disassemble_path int_decimal "arm"
              sect_single_header table_single_header eq_refl) as [H1 _].
  destruct (H1 eq_refl) as (tr & rest & d & _ & _ & _ & Hd & _ & Hdec).
  unfold decode_ex. rewrite Hdec. injection Hd as <-. reflexivity.
Defined.

(** In [doc_unresolved] the class [gone] has no table: the name is
    entered. *)
Lemma node_step_unresolved_witness :
  node_step int_decimal "arm" (init_node_ex doc_unresolved) doc_unresolved
            (node_ref "gone") []
  = Ok [(key_opc, TName "gone")].
Proof.
  refine (proj1 (node_step_unresolved int_decimal "arm"
                   (init_node_ex doc_unresolved) doc_unresolved
                   (node_ref "gone") [] key_opc "gone" _ _ _ _)).
  - reflexivity.
  - reflexivity.
  - reflexivity.
  - intros s [<-|[]]. exists "cls". split; [reflexivity | discriminate].
Defined.

(** C8, at a document with two tables of the identifier [cls].  The
    builder enters the table of the second one, [second], for the child of
    that class; the table of the first one is built and replaced. *)
Theorem init_node_doc_twice :
  init_sect_ex (sect_direct "cls" "first") = Ok (table_direct "first")
  /\ init_sect_ex (sect_direct "cls" "second") = Ok (table_direct "second")
  /\ findall_below "iclass_sect" doc_twice
     = [sect_direct "cls" "first"; sect_direct "cls" "second"]
  /\ init_node_ex doc_twice (hierarchy_of [node_ref "cls"])
     = Ok (mkEncodingTable [(key_opc, TTable (table_direct "second"))]
                           vars_opc None)
  /\ decode_ex (mkEncodingTable [(key_opc, TTable (table_direct "second"))]
                                vars_opc None) word_10_01
     = Ok (VStr "second").
Proof. repeat split. Qed.

(** C9, against the claim.  A hierarchy with a [regdiagram] and no child
    builds, and its table has no entry and no [directFile]. *)
Lemma init_node_empty_counterexample :
  init_node_ex doc_missing hierarchy_empty = Ok table_empty
  /\ entries table_empty = []
  /\ directFile table_empty = None.
Proof. repeat split. Qed.

(** The hierarchy of [doc_ab] leads to the section [sect_ab], through its
    child of the class [cls]. *)
Example fragment_of_doc_ab :
  fragment_of doc_ab (hierarchy_of [node_ref "cls"]) false sect_ab true.
Proof.
  apply (fragment_sect doc_ab _ (node_ref "cls") sect_ab "cls").
  - simpl. left. reflexivity.
  - reflexivity.
  - reflexivity.
  - simpl. left. reflexivity.
  - reflexivity.
Qed.

(** In the tree of [doc_ab] the root, whose hierarchy has one child, has
    an entry, and the table below it is built from a fragment that the
    hierarchy leads to. *)
Lemma built_tables_shape_witness :
  (entries tree_ab <> [] \/ directFile tree_ab <> None)
  /\ exists h' sect',
       fragment_of doc_ab (hierarchy_of [node_ref "cls"]) false h' sect'
       /\ EncodingTable_init int_decimal "arm" doc_ab h' sect' = Ok table_ab
       /\ (directFile table_ab <> None -> entries table_ab = [])
       /\ (has_rows h' sect' = true ->
           entries table_ab <> [] \/ directFile table_ab <> None)
       /\ (has_rows h' sect' = false ->
           entries table_ab = [] /\ directFile table_ab = None).
Proof.
  destruct (built_tables_shape int_decimal "arm" doc_ab
              (hierarchy_of [node_ref "cls"]) false tree_ab eq_refl)
    as ((_ & Hroot & _) & Hsub).
  split.
  - apply Hroot. reflexivity.
  - apply (Hsub table_ab). simpl. right. left. reflexivity.
Defined.

(** The first and the third row of [sect_repeat] have the key
    [subop = 0x]: the one entry under it has the name of the third. *)
Lemma init_sect_same_key_witness :
  entries_at (key_subop "0x") (entries table_repeat)
  = [(key_subop "0x", TName "late")].
Proof.
  destruct (init_sect_same_key int_decimal "arm" sect_repeat table_repeat
              []
              [el "tr" [("encname", "other")] [leaf "td" "00"]]
              []
              (el "tr" [("encname", "early")] [leaf "td" "0x"])
              (el "tr" [("encname", "late")] [leaf "td" "0x"])
              (key_subop "0x"))
    as (tg2 & Htg & Hat & _).
  - reflexivity.
  - vm_compute. discriminate.
  - reflexivity.
  - reflexivity.
  - reflexivity.
  - intros r [].
  - rewrite Hat. vm_compute in Htg. injection Htg as <-. reflexivity.
Defined.

(** ** The further theorems at the examples *)

Example decode_result_tree_ab :
  In (TName "formB") (tree_targets tree_ab)
  /\ decode_ex tree_ab word_10_01 = Ok (VStr "formB").
Proof. split; [cbn; auto | reflexivity]. Qed.

Lemma decode_row_order_witness :
  decode_ex table_two word_10_01 = decode_ex table_two_swapped word_10_01.
Proof.
  apply (decode_row_order string string compareWithXs_model assignValues_bits
           disassemble_path).
  constructor; [|constructor].
  split; [apply perm_swap | reflexivity].
Defined.

Lemma built_keys_distinct_witness : NoDup (PyDict.keys (entries table_ab)).
Proof.
  apply (built_keys_distinct int_decimal "arm" doc_ab
           (hierarchy_of [node_ref "cls"]) false tree_ab).
  - reflexivity.
  - simpl. right. left. reflexivity.
Defined.

Lemma init_entries_bound_witness :
  List.length (entries table_repeat) <= List.length (data_rows sect_repeat).
Proof.
  apply (init_entries_bound int_decimal "arm" doc_ab sect_repeat true table_repeat).
  reflexivity.
Defined.

Example row_key_cells_short :
  row_key sect_ab (el "tr" [("encname", "formA")] []) = Raise IndexError
  /\ row_key sect_ab (el "tr" [] [leaf "td" "00"; leaf "td" "11"])
     = Ok (key_subop "00").
Proof. split; reflexivity. Qed.

Lemma init_sect_entries_rows_witness :
  map fst (key_subop "x1") = table_vars sect_ab
  /\ (forall t', TName "formB" <> TTable t')
  /\ exists tr, In tr (data_rows sect_ab)
                /\ row_key sect_ab tr = Ok (key_subop "x1")
                /\ row_target "arm" tr = Ok (TName "formB").
Proof.
  apply (init_sect_entries_rows int_decimal "arm" sect_ab table_ab).
  - reflexivity.
  - simpl. right. left. reflexivity.
Defined.

Lemma init_node_entries_children_witness :
  Forall (fun c => fst c <> None) key_opc
  /\ (forall p, TTable table_ab <> TPage p)
  /\ exists node, In node (stored_nodes (hierarchy_of [node_ref "cls"]))
                  /\ node_mapping node = Ok key_opc.
Proof.
  apply (init_node_entries_children int_decimal "arm" doc_ab
           (hierarchy_of [node_ref "cls"]) tree_ab).
  - reflexivity.
  - simpl. left. reflexivity.
Defined.

Lemma built_direct_not_table_witness :
  decode_ex (table_direct "second") word_00_00 = Ok (VStr "second").
Proof.
  destruct (built_direct_not_table string string compareWithXs_model
              assignValues_bits disassemble_path int_decimal "arm" doc_twice
              (hierarchy_of [node_ref "cls"]) false
              (mkEncodingTable [(key_opc, TTable (table_direct "second"))]
                               vars_opc None)
              eq_refl (table_direct "second") (or_intror (or_introl eq_refl)))
    as (_ & Hname & _).
  exact (Hname "second" word_00_00 eq_refl).
Defined.

Lemma print_counts_built_witness : printed_counts (print tree_ab) = [1; 2].
Proof.
  rewrite (print_counts_built int_decimal "arm" doc_ab
             (hierarchy_of [node_ref "cls"]) false tree_ab eq_refl).
  reflexivity.
Defined.

Lemma matchVar_negated_spaces_witness :
  matchVar_ex [("f", "0100")] (Some "f", Some " 01 != 1x ")
  = matchVar_ex [("f", "0100")] (Some "f", Some "01!=1x").
Proof.
  apply (matchVar_negated_spaces compareWithXs_model [("f", "0100")]
           (Some "f") " 01 != 1x ").
  reflexivity.
Defined.

Lemma node_step_last_section_witness :
  node_step int_decimal "arm" (init_node_ex doc_twice) doc_twice
            (node_ref "cls") []
  = Ok [(key_opc, TTable (table_direct "second"))].
Proof.
  refine (proj1 (node_step_last_section int_decimal "arm"
                   (init_node_ex doc_twice) doc_twice (node_ref "cls") []
                   [(key_opc, TTable (table_direct "first"))] key_opc "cls"
                   [sect_direct "cls" "first"] [] (sect_direct "cls" "second")
                   true (table_direct "second") _ _ _ _ _ _ _ _)).
  - reflexivity.
  - reflexivity.
  - reflexivity.
  - reflexivity.
  - reflexivity.
  - reflexivity.
  - reflexivity.
  - intros s [].
Defined.

Lemma init_node_children_built_witness :
  exists t', init_node_ex doc_nested node_group = Ok t'.
Proof.
  destruct (init_node_children_built int_decimal "arm" doc_nested
              (hierarchy_of [node_group])
              (mkEncodingTable [(key_opc, TTable tree_ab)] vars_opc None)
              eq_refl node_group (or_introl eq_refl)) as (_ & Hg & _).
  exact (Hg eq_refl).
Defined.

Lemma read_variables_names_witness :
  PyDict.get String.eqb "op"
             [("op", (30, 1)%Z)] = Some (30, 1)%Z.
Proof.
  destruct (read_variables_names int_decimal hierarchy_boxes regdiagram_boxes
              [("op", (30, 1)%Z)] eq_refl eq_refl) as (_ & _ & Hlast).
  destruct (Hlast
              [el "box" [("hibit", "27")] [];
               el "box" [("hibit", "31"); ("width", "2"); ("name", "op")] []]
              (el "box" [("hibit", "30"); ("name", "op")] []) [] "op"
              eq_refl eq_refl (fun b (H : In b []) => match H with end))
    as (hb & h & w & Hhb & Hh & Hw & Hget).
  cbn in Hhb. injection Hhb as <-. cbn in Hh. injection Hh as <-.
  cbn in Hw. subst w. exact Hget.
Defined.

Lemma init_sect_header_errors_witness :
  init_sect_ex sect_no_header = Raise IndexError.
Proof.
  destruct (init_sect_header_errors int_decimal "arm" sect_no_header
              vars_subop eq_refl) as (_ & H).
  destruct (H (table_of [] [el "tr" [("encname", "formA")] [leaf "td" "00"]])
              eq_refl) as (_ & H').
  destruct (H' (el "thead" [] []) eq_refl) as (Hidx & _).
  exact (Hidx eq_refl).
Defined.

Lemma init_node_sections_only_witness :
  init_node_ex doc_ab (hierarchy_of [node_ref "cls"])
  = init_node_ex doc_sections (hierarchy_of [node_ref "cls"]).
Proof.
  apply (init_node_sections_only int_decimal "arm"
           (hierarchy_of [node_ref "cls"]) doc_ab doc_sections).
  reflexivity.
Defined.

Example split_list_three :
  split_list "a!=b!=c" = ["a"; "b"; "c"]
  /\ join_neq "a" ["b"; "c"] = "a!=b!=c"
  /\ split_list "!!==" = ["!"; "="].
Proof. repeat split. Qed.

Lemma init_sect_distinct_rows_witness :
  Forall2 (fun tr e => row_key sect_ab tr = Ok (fst e)
                       /\ row_target "arm" tr = Ok (snd e))
          (data_rows sect_ab) (entries table_ab).
Proof.
  apply (init_sect_distinct_rows int_decimal "arm" sect_ab table_ab).
  - reflexivity.
  - vm_compute. discriminate.
  - vm_compute. constructor.
    + intros [H|[]]. discriminate H.
    + constructor; [intros [] | constructor].
Defined.

Lemma init_sect_decode_first_row_witness :
  decode_ex table_ab word_10_01 = Ok (VStr "formB").
Proof.
  apply (init_sect_decode_first_row string string compareWithXs_model
           assignValues_bits disassemble_path int_decimal "arm"
           sect_ab table_ab word_10_01 [row_a] [] row_b (key_subop "x1")
           (TName "formB")).
  - reflexivity.
  - vm_compute. discriminate.
  - vm_compute. constructor.
    + intros [H|[]]. discriminate H.
    + constructor; [intros [] | constructor].
  - reflexivity.
  - reflexivity.
  - reflexivity.
  - intros tr' key' [<-|[]] Hk H. vm_compute in Hk. injection Hk as <-.
    specialize (H (Some "subop", Some "00") (or_introl eq_refl)).
    vm_compute in H. discriminate H.
  - intros tup [<-|[]]. reflexivity.
Defined.

(** The second row of [tree_back] matches every instruction, and yet an
    instruction that its first row sends to [table_ab] in vain is not
    decoded. *)
Lemma decode_no_way_back_witness : decode_ex tree_back word_10_10 = Ok VNone.
Proof.
  apply (decode_no_way_back string string compareWithXs_model assignValues_bits
           disassemble_path tree_back table_ab word_10_10 []
           [([(Some "opc", None)], TName "fallback")] key_opc).
  - reflexivity.
  - reflexivity.
  - intros r [].
  - intros tup [<-|[]]. reflexivity.
  - reflexivity.
Defined.
